(** * React study notes: a shallow embedding of the example components

    The repository pairs markdown lessons with small React/TypeScript
    components.  Each component is embedded as a record of its [useState]
    cells, its event handlers as functions from the rendered snapshot to the
    queue of setter calls they issue, and its render function as the list of
    form controls and keyed children it returns.  JavaScript built-ins the components call
    ([String.prototype.trim], [Array.prototype.filter], array index reads and
    writes, [addEventListener]) are written out with the behaviour ECMAScript
    and the DOM standard give them. *)

From Stdlib Require Import ZArith NArith Lia Ascii String Permutation.
From stdpp Require Import base list strings infinite pretty.

Local Open Scope Z_scope.

(** ** JavaScript values *)

Module JS.

(** A JavaScript string is a sequence of UTF-16 code units. *)
Definition jsstring := list N.

(** The code units of an ASCII literal of the source. *)
Definition str (s : string) : jsstring :=
  N_of_ascii <$> list_ascii_of_string s.

(** ECMAScript [WhiteSpace] and [LineTerminator] code points; all of them
    lie in the basic plane, so each is one code unit. *)
Definition is_white_space (c : N) : bool :=
  ((c =? 9) || (c =? 10) || (c =? 11) || (c =? 12) || (c =? 13)
   || (c =? 32) || (c =? 160) || (c =? 5760)
   || ((8192 <=? c) && (c <=? 8202))
   || (c =? 8232) || (c =? 8233) || (c =? 8239) || (c =? 8287)
   || (c =? 12288) || (c =? 65279))%N.

Fixpoint trimStart (s : jsstring) : jsstring :=
  match s with
  | [] => []
  | c :: s' => if is_white_space c then trimStart s' else s
  end.

Definition trimEnd (s : jsstring) : jsstring :=
  reverse (trimStart (reverse s)).

(** [String.prototype.trim] *)
Definition trim (s : jsstring) : jsstring := trimEnd (trimStart s).

(** The numbers that reach the components through [Number(...)] and
    [new Date().getFullYear()] are IEEE doubles (NaN included); the
    conversions are the runtime's, so they are an interface here. *)
Class JSNumber := {
  num : Type;
  Number : jsstring -> num;
  numlit : Z -> num
}.

(** An array slot: [None] is [undefined].  A [string[]] state array holds
    [undefined] at run time once an out-of-range read has been stored. *)
Definition slot (A : Type) := option A.

Section Arrays.
Context {A : Type}.

(** [a[i]]: [undefined] outside [0 .. length-1]. *)
Definition aget (a : list (slot A)) (i : Z) : slot A :=
  if i <? 0 then None
  else match a !! Z.to_nat i with
       | Some x => x
       | None => None
       end.

(** [a[i] = v]: in range it overwrites; at [i >= length] the array grows to
    length [i+1], the slots in between reading as [undefined]; a negative
    [i] names an ordinary property and leaves the elements alone. *)
Definition aset (a : list (slot A)) (i : Z) (v : slot A) : list (slot A) :=
  if i <? 0 then a
  else if i <? Z.of_nat (length a) then <[Z.to_nat i := v]> a
  else a ++ replicate (Z.to_nat i - length a) None ++ [v].

(** [[a[i], a[j]] = [a[j'], a[i']]]: the right-hand array literal is
    evaluated first, then its two elements are assigned left to right. *)
Definition assign_pair (a : list (slot A)) (i j : Z) (rhs : slot A * slot A)
  : list (slot A) :=
  aset (aset a i (fst rhs)) j (snd rhs).
End Arrays.

(** [xs.filter((x, i) => cb(x, i))]: the callback sees each element with its
    position; the kept elements form a new array, in order. *)
Fixpoint filter_from {A : Type} (cb : A -> Z -> bool) (i : Z) (xs : list A)
  : list A :=
  match xs with
  | [] => []
  | x :: xs' =>
      if cb x i then x :: filter_from cb (i + 1) xs'
      else filter_from cb (i + 1) xs'
  end.

Definition filter {A : Type} (cb : A -> Z -> bool) (xs : list A) : list A :=
  filter_from cb 0 xs.

(** [xs.map((x, i) => f(x, i))] *)
Fixpoint map_from {A B : Type} (f : A -> Z -> B) (i : Z) (xs : list A)
  : list B :=
  match xs with
  | [] => []
  | x :: xs' => f x i :: map_from f (i + 1) xs'
  end.

Definition map {A B : Type} (f : A -> Z -> B) (xs : list A) : list B :=
  map_from f 0 xs.

(** [`${n}`] for an integer [n]: its decimal digits, with a leading minus
    sign when negative (the numbers formatted here are counts and clock
    readings, far below the magnitude where exponents appear). *)
Definition toString (n : Z) : jsstring := str (pretty n).

(** ** Integer-valued numbers

    A count is a JavaScript number, an IEEE 754 binary64 value, that holds an
    integer.  Such a value is carried as the integer it denotes.  Every
    integer of magnitude up to [2^53] is a binary64 value; above, the values
    with binary exponent [k] (from [2^k] to [2^(k+1)]) are the multiples of
    [2^(k-52)]. *)

(** [2^53], the bound below which every integer is a binary64 value. *)
Definition two_53 : Z := 9007199254740992.

(** The binary64 value nearest to the integer [x], ties going to the even
    significand (for [x] of magnitude below [2^1024], which a sum or
    difference of a finite value and 1 always is: the largest finite value
    plus one rounds back to itself). *)
Definition round_double (x : Z) : Z :=
  if Z.abs x <=? two_53 then x
  else
    let ulp := 2 ^ (Z.log2 (Z.abs x) - 52) in
    let q := Z.abs x / ulp in
    let r := Z.abs x mod ulp in
    let q' :=
      if 2 * r <? ulp then q
      else if ulp <? 2 * r then q + 1
      else if Z.even q then q else q + 1 in
    Z.sgn x * (q' * ulp).

(** [a + b] and [a - b] on numbers: the exact result, rounded. *)
Definition number_add (a b : Z) : Z := round_double (a + b).

Definition number_sub (a b : Z) : Z := round_double (a - b).

Arguments round_double : simpl never.
Arguments number_add : simpl never.
Arguments number_sub : simpl never.

End JS.

(** ** The state model of [useState]

    A setter takes either the next value or an updater applied to the value
    current when the queue is processed.  A handler is a closure over the
    snapshot of the render that created it; calling it only enqueues setter
    calls, and the queue is applied, in order, before the next render. *)

Module React.

Inductive SetStateAction (V : Type) :=
| Value (v : V)
| Updater (f : V -> V).
Arguments Value {V} v.
Arguments Updater {V} f.

Definition resolve {V : Type} (a : SetStateAction V) (prev : V) : V :=
  match a with
  | Value v => v
  | Updater f => f prev
  end.

Definition handler (S : Type) := S -> list (S -> S).

Definition flush {S : Type} (queue : list (S -> S)) (s : S) : S :=
  foldl (fun acc u => u acc) s queue.

(** One event, then a re-render. *)
Definition dispatch {S : Type} (h : handler S) (s : S) : S :=
  flush (h s) s.

(** Several handler calls before any re-render: every call closes over the
    same snapshot, the queues are concatenated. *)
Definition batch {S : Type} (hs : list (handler S)) (s : S) : S :=
  flush (concat ((fun h => h s) <$> hs)) s.

(** [useEffect(f, deps)]: after a commit, [f] runs when the component has
    just mounted ([prev] is [None]) or when some dependency differs from its
    value at the previous commit. *)
Definition deps_changed {D : Type} `{EqDecision D} (prev : option D) (next : D)
  : bool :=
  match prev with
  | None => true
  | Some d => bool_decide (d <> next)
  end.

End React.

(** ** Rendered form controls *)

Module JSX.
Import JS React.

Section Elements.
Context `{JSNumber}.

(** What a [value={...}] prop carries in the examples. *)
Inductive propval :=
| PStr (s : jsstring)
| PNum (n : num).

(** An [<input>], [<textarea>] or [<select>] as the render wrote it; a
    prop the JSX leaves out is [None].  The change event reaches the
    handler through [event.target.value] only. *)
Record control (S : Type) := {
  tag : string;
  type_ : option string;
  id_ : option string;
  value : option propval;
  checked : option bool;
  onChange : option (jsstring -> handler S)
}.
End Elements.

Arguments tag {_ S} _.
Arguments type_ {_ S} _.
Arguments id_ {_ S} _.
Arguments value {_ S} _.
Arguments checked {_ S} _.
Arguments onChange {_ S} _.

(** A list child with its [key] prop. *)
Record keyed (C : Type) := { key : Z; child : C }.
Arguments key {C} _.
Arguments child {C} _.

Definition keys {C : Type} (items : list (keyed C)) : list Z := key <$> items.
End JSX.

(** ** The to-do list ([ToDoList]) *)

Module ToDoList.
Import JS React JSX.

Record state := {
  tasks : list (slot jsstring);
  newTask : jsstring
}.

Definition init : state :=
  {| tasks := [Some (str "Wake up"); Some (str "Brush Teeth");
               Some (str "Eat Breakfast")];
     newTask := [] |}.

Definition setTasks (a : SetStateAction (list (slot jsstring))) (s : state)
  : state :=
  {| tasks := resolve a (tasks s); newTask := newTask s |}.

Definition setNewTask (a : SetStateAction jsstring) (s : state) : state :=
  {| tasks := tasks s; newTask := resolve a (newTask s) |}.

Definition handleInputChange (value : jsstring) : handler state :=
  fun _ => [setNewTask (Value value)].

Definition handleAddTask : handler state :=
  fun snap =>
    if bool_decide (trim (newTask snap) ≠ [])
    then [setTasks (Value (tasks snap ++ [Some (trim (newTask snap))]));
          setNewTask (Value [])]
    else [].

Definition handleDeleteTask (index : Z) : handler state :=
  fun snap =>
    let updatedTasks :=
      JS.filter (fun _ i => negb (i =? index)) (tasks snap) in
    [setTasks (Value updatedTasks)].

Definition moveTaskUp (index : Z) : handler state :=
  fun snap =>
    if index =? 0 then []
    else
      let updatedTasks := tasks snap in
      let updatedTasks :=
        assign_pair updatedTasks (index - 1) index
          (aget updatedTasks index, aget updatedTasks (index - 1)) in
      [setTasks (Value updatedTasks)].

Definition moveTaskDown (index : Z) : handler state :=
  fun snap =>
    if index =? -1 then []
    else
      let updatedTasks := tasks snap in
      let updatedTasks :=
        assign_pair updatedTasks (index + 1) index
          (aget updatedTasks index, aget updatedTasks (index + 1)) in
      [setTasks (Value updatedTasks)].

(** The [<li key={index}>] children of the [<ol>]. *)
Definition render_items (s : state) : list (keyed (slot jsstring)) :=
  JS.map (fun task index => {| key := index; child := task |}) (tasks s).

Section Render.
Context `{JSNumber}.

Definition render_controls (s : state) : list (control state) :=
  [ {| tag := "input"; type_ := Some "text"; id_ := None;
       value := Some (PStr (newTask s)); checked := None;
       onChange := Some handleInputChange |} ].
End Render.
End ToDoList.

(** ** The [useState] lesson's [Counter] *)

Module UseStateCounter.
Import React.

Record state := { count : Z }.

Definition init : state := {| count := 0 |}.

Definition setCount (a : SetStateAction Z) (s : state) : state :=
  {| count := resolve a (count s) |}.

Definition increment : handler state :=
  fun snap => [setCount (Value (JS.number_add (count snap) 1))].

Definition decrement : handler state :=
  fun snap => [setCount (Value (JS.number_sub (count snap) 1))].

Definition reset : handler state :=
  fun _ => [setCount (Value 0)].
End UseStateCounter.

(** ** The updater-function lesson's counter ([MyComponent]) *)

Module UpdaterCounter.
Import React.

Record state := { count : Z }.

Definition init : state := {| count := 0 |}.

Definition setCount (a : SetStateAction Z) (s : state) : state :=
  {| count := resolve a (count s) |}.

Definition handleIncrement : handler state :=
  fun _ => [setCount (Updater (fun c => JS.number_add c 1))].

Definition handleDecrement : handler state :=
  fun _ => [setCount (Updater (fun c => JS.number_sub c 1))].

Definition handleReset : handler state :=
  fun _ => [setCount (Value 0)].
End UpdaterCounter.

(** ** 15. useEffect hook, example 1: counter and colour *)

Module EffectCounter.
Import JS React.

Record state := { count : Z; color : jsstring }.

Definition init : state := {| count := 0; color := str "green" |}.

Definition setCount (a : SetStateAction Z) (s : state) : state :=
  {| count := resolve a (count s); color := color s |}.

Definition setColor (a : SetStateAction jsstring) (s : state) : state :=
  {| count := count s; color := resolve a (color s) |}.

Definition handleAddCount : handler state :=
  fun _ => [setCount (Updater (fun c => JS.number_add c 1))].

Definition handleSubtractCount : handler state :=
  fun _ => [setCount (Updater (fun c => JS.number_sub c 1))].

(** The three inline [onClick] arrows [() => setColor("red" | "blue" | "green")]. *)
Definition handleColor (c : string) : handler state :=
  fun _ => [setColor (Value (str c))].

(** The [document], as far as the effect writes it. *)
Record document := { title : jsstring }.

(** The effect body: [document.title = `Count is ${count} ${color}`]. *)
Definition effect (s : state) (doc : document) : document :=
  {| title := str "Count is " ++ toString (count s) ++ str " " ++ color s |}.

(** The effect with its dependency list [[count, color]], at the commit of
    the render of [s] that follows the render of [prev]. *)
Definition commit (prev : option state) (s : state) (doc : document)
  : document :=
  if deps_changed ((fun p => (count p, color p)) <$> prev) (count s, color s)
  then effect s doc
  else doc.

(** One event: the handler runs, the component re-renders and commits. *)
Definition event (h : handler state) (sd : state * document)
  : state * document :=
  let s' := dispatch h (fst sd) in
  (s', commit (Some (fst sd)) s' (snd sd)).

Definition mount (doc : document) : state * document :=
  (init, commit None init doc).
End EffectCounter.

(** ** 8. onChange event handler, example *)

Module OnChangeExample.
Import JS React JSX.

Section Component.
Context `{JSNumber}.

Record state := {
  name : jsstring;
  quantity : num;
  comment : jsstring;
  payment : jsstring;
  shipping : jsstring
}.

Definition init : state :=
  {| name := []; quantity := numlit 0; comment := []; payment := [];
     shipping := str "Delivery" |}.

Definition setName (a : SetStateAction jsstring) (s : state) : state :=
  {| name := resolve a (name s); quantity := quantity s;
     comment := comment s; payment := payment s; shipping := shipping s |}.

Definition setQuantity (a : SetStateAction num) (s : state) : state :=
  {| name := name s; quantity := resolve a (quantity s);
     comment := comment s; payment := payment s; shipping := shipping s |}.

Definition setComment (a : SetStateAction jsstring) (s : state) : state :=
  {| name := name s; quantity := quantity s;
     comment := resolve a (comment s); payment := payment s;
     shipping := shipping s |}.

Definition setPayment (a : SetStateAction jsstring) (s : state) : state :=
  {| name := name s; quantity := quantity s; comment := comment s;
     payment := resolve a (payment s); shipping := shipping s |}.

Definition setShipping (a : SetStateAction jsstring) (s : state) : state :=
  {| name := name s; quantity := quantity s; comment := comment s;
     payment := payment s; shipping := resolve a (shipping s) |}.

Definition handleNameChange (value : jsstring) : handler state :=
  fun _ => [setName (Value value)].

Definition handleQuantityChange (value : jsstring) : handler state :=
  fun _ => [setQuantity (Value (Number value))].

Definition handleCommentChange (value : jsstring) : handler state :=
  fun _ => [setComment (Value value)].

Definition handlePaymentChange (value : jsstring) : handler state :=
  fun _ => [setPayment (Value value)].

Definition handleShippingChange (value : jsstring) : handler state :=
  fun _ => [setShipping (Value value)].

Definition render_controls (s : state) : list (control state) :=
  [ {| tag := "input"; type_ := None; id_ := None;
       value := Some (PStr (name s)); checked := None;
       onChange := Some handleNameChange |};
    {| tag := "input"; type_ := Some "number"; id_ := None;
       value := Some (PNum (quantity s)); checked := None;
       onChange := Some handleQuantityChange |};
    {| tag := "textarea"; type_ := None; id_ := None;
       value := Some (PStr (comment s)); checked := None;
       onChange := Some handleCommentChange |};
    {| tag := "select"; type_ := None; id_ := None;
       value := Some (PStr (payment s)); checked := None;
       onChange := Some handlePaymentChange |};
    {| tag := "input"; type_ := Some "radio"; id_ := None;
       value := Some (PStr (str "Pickup"));
       checked := Some (bool_decide (shipping s = str "Pickup"));
       onChange := Some handleShippingChange |};
    {| tag := "input"; type_ := Some "radio"; id_ := None;
       value := Some (PStr (str "Delivery"));
       checked := Some (bool_decide (shipping s = str "Delivery"));
       onChange := Some handleShippingChange |} ].
End Component.
End OnChangeExample.

(** ** The colour picker ([ColorPicker]) *)

Module ColorPicker.
Import JS React JSX.

Record state := { color : jsstring }.

Definition init : state := {| color := str "#FFFFFF" |}.

Definition setColor (a : SetStateAction jsstring) (s : state) : state :=
  {| color := resolve a (color s) |}.

Definition handleColorChange (value : jsstring) : handler state :=
  fun _ => [setColor (Value value)].

Section Render.
Context `{JSNumber}.

Definition render_controls (s : state) : list (control state) :=
  [ {| tag := "input"; type_ := Some "color"; id_ := None;
       value := Some (PStr (color s)); checked := None;
       onChange := Some handleColorChange |} ].
End Render.
End ColorPicker.

(** ** The car-details object example (one [Car] object in state) *)

Module CarDetails.
Import JS React JSX.

Section Component.
Context `{JSNumber}.

Record Car := { year : num; make : jsstring; model : jsstring }.

Record state := { car : Car }.

Definition init : state :=
  {| car := {| year := numlit 2020; make := str "Toyota";
               model := str "Corolla" |} |}.

Definition setCar (a : SetStateAction Car) (s : state) : state :=
  {| car := resolve a (car s) |}.

(** [String(v)] of a string [v] is [v]. *)
Definition String_ (v : jsstring) : jsstring := v.

Definition handleYearChange (value : jsstring) : handler state :=
  fun _ => [setCar (Updater (fun car =>
              {| year := Number value; make := make car;
                 model := model car |}))].

Definition handleMakeChange (value : jsstring) : handler state :=
  fun _ => [setCar (Updater (fun car =>
              {| year := year car; make := String_ value;
                 model := model car |}))].

Definition handleModelChange (value : jsstring) : handler state :=
  fun _ => [setCar (Updater (fun car =>
              {| year := year car; make := make car;
                 model := String_ value |}))].

Definition render_controls (s : state) : list (control state) :=
  [ {| tag := "input"; type_ := Some "number"; id_ := None;
       value := Some (PNum (year (car s))); checked := None;
       onChange := Some handleYearChange |};
    {| tag := "input"; type_ := Some "text"; id_ := None;
       value := Some (PStr (make (car s))); checked := None;
       onChange := Some handleMakeChange |};
    {| tag := "input"; type_ := Some "text"; id_ := None;
       value := Some (PStr (model (car s))); checked := None;
       onChange := Some handleModelChange |} ].
End Component.
End CarDetails.

(** ** The car inventory (an array of [Car] objects in state) *)

Module CarInventory.
Import JS React JSX.

Section Component.
Context `{JSNumber}.

Record Car := { year : num; make : jsstring; model : jsstring }.

Record state := {
  cars : list Car;
  carYear : num;
  carMake : jsstring;
  carModel : jsstring
}.

(** [thisYear] is what [new Date().getFullYear()] returns when it is
    evaluated. *)
Definition init (thisYear : num) : state :=
  {| cars := []; carYear := thisYear; carMake := []; carModel := [] |}.

Definition setCars (a : SetStateAction (list Car)) (s : state) : state :=
  {| cars := resolve a (cars s); carYear := carYear s;
     carMake := carMake s; carModel := carModel s |}.

Definition setCarYear (a : SetStateAction num) (s : state) : state :=
  {| cars := cars s; carYear := resolve a (carYear s);
     carMake := carMake s; carModel := carModel s |}.

Definition setCarMake (a : SetStateAction jsstring) (s : state) : state :=
  {| cars := cars s; carYear := carYear s;
     carMake := resolve a (carMake s); carModel := carModel s |}.

Definition setCarModel (a : SetStateAction jsstring) (s : state) : state :=
  {| cars := cars s; carYear := carYear s; carMake := carMake s;
     carModel := resolve a (carModel s) |}.

Definition handleAddCar (thisYear : num) : handler state :=
  fun snap =>
    let newCar :=
      {| year := carYear snap; make := carMake snap;
         model := carModel snap |} in
    [setCars (Updater (fun c => c ++ [newCar]));
     setCarYear (Value thisYear);
     setCarMake (Value []);
     setCarModel (Value [])].

Definition handleRemoveCar (index : Z) : handler state :=
  fun snap =>
    [setCars (Value (JS.filter (fun _ i => negb (i =? index)) (cars snap)))].

Definition handleCarYearChange (value : jsstring) : handler state :=
  fun _ => [setCarYear (Value (Number value))].

Definition handleCarMakeChange (value : jsstring) : handler state :=
  fun _ => [setCarMake (Value value)].

Definition handleCarModelChange (value : jsstring) : handler state :=
  fun _ => [setCarModel (Value value)].

Definition render_items (s : state) : list (keyed Car) :=
  JS.map (fun car index => {| key := index; child := car |}) (cars s).

Definition render_controls (s : state) : list (control state) :=
  [ {| tag := "input"; type_ := Some "number"; id_ := None;
       value := Some (PNum (carYear s)); checked := None;
       onChange := Some handleCarYearChange |};
    {| tag := "input"; type_ := Some "text"; id_ := None;
       value := Some (PStr (carMake s)); checked := None;
       onChange := Some handleCarMakeChange |};
    {| tag := "input"; type_ := Some "text"; id_ := None;
       value := Some (PStr (carModel s)); checked := None;
       onChange := Some handleCarModelChange |} ].
End Component.
End CarInventory.

(** ** 12. Update arrays in state, example (the food list) *)

Module UpdateArrays.
Import JS React JSX.

Record state := { food : list jsstring }.

(** The one DOM node the component reaches through
    [document.getElementById]: the text held by [<input id="foodInput">]. *)
Record document := { foodInput : jsstring }.

Definition init : state :=
  {| food := [str "Apple"; str "Banana"; str "Orange"] |}.

Definition setFoods (a : SetStateAction (list jsstring)) (s : state) : state :=
  {| food := resolve a (food s) |}.

Definition handleAddFood (doc : document) : handler state * document :=
  let newFood := foodInput doc in
  (fun _ => [setFoods (Updater (fun f => f ++ [newFood]))],
   {| foodInput := [] |}).

Definition handleRemoveFood (index : Z) : handler state :=
  fun _ =>
    [setFoods (Updater (fun f => JS.filter (fun _ i => negb (i =? index)) f))].

Definition render_items (s : state) : list (keyed jsstring) :=
  JS.map (fun item index => {| key := index; child := item |}) (food s).

Section Render.
Context `{JSNumber}.

Definition render_controls (s : state) : list (control state) :=
  [ {| tag := "input"; type_ := Some "text"; id_ := Some "foodInput";
       value := None; checked := None; onChange := None |} ].
End Render.
End UpdateArrays.

(** ** 5. Render lists, example 1 ([List] and [App])

    The [id] and [calories] of the items are integer literals in [App]; the
    item collections considered are those with integer ids. *)

Module RenderLists.
Import JS JSX.

Record FoodItem := { id : Z; name : jsstring; calories : Z }.

Record Props := { items : list FoodItem; category : jsstring }.

Definition List (props : Props) : list (keyed FoodItem) :=
  let itemList := items props in
  JS.map (fun item _ => {| key := id item; child := item |}) itemList.

Definition fruits : list FoodItem :=
  [ {| id := 1; name := str "Apple"; calories := 95 |};
    {| id := 2; name := str "Banana"; calories := 105 |};
    {| id := 3; name := str "Cherry"; calories := 50 |};
    {| id := 4; name := str "Date"; calories := 20 |} ].

Definition groceries : list FoodItem :=
  [ {| id := 1; name := str "Bread"; calories := 80 |};
    {| id := 2; name := str "Milk"; calories := 150 |};
    {| id := 3; name := str "Eggs"; calories := 70 |} ].

Definition App : list (list (keyed FoodItem)) :=
  [ List {| items := fruits; category := str "Fruits" |};
    List {| items := groceries; category := str "Groceries" |} ].
End RenderLists.

(** ** 15. useEffect hook, example 2: the window size *)

Module WindowSize.
Import JS React.

(** A function object is known by its identity: two evaluations of the
    declaration [function handleResize() {...}] give two distinct objects. *)
Definition fn := nat.

(** The part of [window] the component touches, with the console. *)
Record window := {
  innerWidth : Z;
  innerHeight : Z;
  listeners : list (jsstring * fn);
  console : list string
}.

(** DOM: a listener is appended unless an equal one is registered. *)
Definition addEventListener (type : jsstring) (callback : fn) (w : window)
  : window :=
  {| innerWidth := innerWidth w; innerHeight := innerHeight w;
     listeners :=
       if bool_decide ((type, callback) ∈ listeners w) then listeners w
       else listeners w ++ [(type, callback)];
     console := console w |}.

Fixpoint remove_listener (l : jsstring * fn) (ls : list (jsstring * fn))
  : list (jsstring * fn) :=
  match ls with
  | [] => []
  | l' :: ls' => if bool_decide (l' = l) then ls' else l' :: remove_listener l ls'
  end.

(** DOM: the registered listener equal to the given one, if any, goes. *)
Definition removeEventListener (type : jsstring) (callback : fn) (w : window)
  : window :=
  {| innerWidth := innerWidth w; innerHeight := innerHeight w;
     listeners := remove_listener (type, callback) (listeners w);
     console := console w |}.

Definition console_log (msg : string) (w : window) : window :=
  {| innerWidth := innerWidth w; innerHeight := innerHeight w;
     listeners := listeners w; console := console w ++ [msg] |}.

Record state := { width : Z; height : Z }.

Definition init (w : window) : state :=
  {| width := innerWidth w; height := innerHeight w |}.

Definition setWidth (a : SetStateAction Z) (s : state) : state :=
  {| width := resolve a (width s); height := height s |}.

Definition setHeight (a : SetStateAction Z) (s : state) : state :=
  {| width := width s; height := resolve a (height s) |}.

(** The body of [handleResize], run against the window at the event. *)
Definition handleResize (w : window) : handler state :=
  fun _ => [setWidth (Value (innerWidth w)); setHeight (Value (innerHeight w))].

(** The first [useEffect] callback, given the [handleResize] object of the
    render it belongs to: the window after the effect body, and the cleanup
    closure it returns. *)
Definition effect (handleResize : fn) (w : window)
  : window * (window -> window) :=
  let w := addEventListener (str "resize") handleResize w in
  let w := console_log "Event Listener Added" w in
  (w, fun w =>
        let w := removeEventListener (str "resize") handleResize w in
        console_log "Event Listener Removed" w).

(** The render evaluates the declaration of [handleResize]: a function
    object different from every object already registered. *)
Definition render_handleResize (w : window) : fn :=
  fresh (snd <$> listeners w).

(** Mount: render, then the effect (its dependency list is empty, so it runs
    once).  Unmount: the stored cleanup. *)
Definition mount (w : window) : window * (window -> window) :=
  effect (render_handleResize w) w.

Definition mount_unmount (w : window) : window :=
  let '(w, cleanup) := mount w in cleanup w.

(** A ['resize'] event reaches the component when its [handleResize] object
    [self] is registered for it; the handler then runs against the window. *)
Definition fire_resize (self : fn) (w : window) (s : state) : state :=
  if bool_decide ((str "resize", self) ∈ listeners w)
  then dispatch (handleResize w) s
  else s.
End WindowSize.

(** ** 16. Digital clock app ([DigitalClock]) *)

Module DigitalClock.
Import React.

(** What [formatTime] reads of a [Date]: local hours, minutes, seconds. *)
Record Date := { getHours : Z; getMinutes : Z; getSeconds : Z }.

Record state := { time : Date }.

(** [now] is the [Date] that [new Date()] gives when it is evaluated. *)
Definition init (now : Date) : state := {| time := now |}.

Definition setTime (a : SetStateAction Date) (s : state) : state :=
  {| time := resolve a (time s) |}.

(** The active interval timers, by id.  [setInterval] returns an id that no
    active timer has; [clearInterval] stops the timer with the given id. *)
Definition setInterval (active : list nat) : nat * list nat :=
  let id := fresh active in (id, active ++ [id]).

Definition clearInterval (id : nat) (active : list nat) : list nat :=
  base.filter (fun t => t <> id) active.

(** The interval callback, run at a moment when [new Date()] is [now]. *)
Definition tick (now : Date) : handler state :=
  fun _ => [setTime (Value now)].

(** The effect: the timers after its body, and its cleanup. *)
Definition effect (active : list nat) : list nat * (list nat -> list nat) :=
  let '(intervalId, active) := setInterval active in
  (active, fun active => clearInterval intervalId active).

Definition padZero (num : Z) : JS.jsstring :=
  if num <? 10 then JS.str "0" ++ JS.toString num else JS.toString num.

Definition formatTime (s : state) : JS.jsstring :=
  let hours := getHours (time s) in
  let minutes := getMinutes (time s) in
  let seconds := getSeconds (time s) in
  let meridiem := if 12 <=? hours then JS.str "PM" else JS.str "AM" in
  padZero hours ++ JS.str ":" ++ padZero minutes ++ JS.str ":"
  ++ padZero seconds ++ JS.str " " ++ meridiem.
End DigitalClock.

(** ** Array objects by reference

    [useState] cells that hold arrays hold references.  The three delete
    handlers are given once more at that level, to state that the array the
    cell held before is left as it was. *)

Module Heap.
Definition ref := nat.

(** The array objects allocated so far, by address. *)
Abbreviation heap A := (list (list A)) (only parsing).

Definition deref {A : Type} (h : heap A) (r : ref) : option (list A) :=
  h !! r.

Definition alloc {A : Type} (a : list A) (h : heap A) : ref * heap A :=
  (length h, h ++ [a]).

(** [r.filter(cb)]: reads the receiver, allocates the result. *)
Definition filter {A : Type} (cb : A -> Z -> bool) (r : ref) (h : heap A)
  : option (ref * heap A) :=
  match deref h r with
  | Some a => Some (alloc (JS.filter cb a) h)
  | None => None
  end.
End Heap.

Module ByReference.
Import JS.

(** Each handler maps the reference its state cell holds, and the heap, to
    the reference the setter stores and the heap afterwards. *)

Definition handleDeleteTask (index : Z) (tasks : Heap.ref)
    (h : Heap.heap (slot jsstring))
  : option (Heap.ref * Heap.heap (slot jsstring)) :=
  Heap.filter (fun _ i => negb (i =? index)) tasks h.

Definition handleRemoveCar {Car : Type} (index : Z) (cars : Heap.ref)
    (h : Heap.heap Car)
  : option (Heap.ref * Heap.heap Car) :=
  Heap.filter (fun _ i => negb (i =? index)) cars h.

Definition handleRemoveFood (index : Z) (f : Heap.ref)
    (h : Heap.heap jsstring)
  : option (Heap.ref * Heap.heap jsstring) :=
  Heap.filter (fun _ i => negb (i =? index)) f h.
End ByReference.

(** ** Specification predicates *)

Module Spec.
Import JS React JSX.

(** Numbers with their value forgotten: the instance used where a closed
    statement needs one and no number takes part (the to-do and food lists). *)
Definition opaque_numbers : JSNumber :=
  {| num := unit; Number := fun _ => tt; numlit := fun _ => tt |}.

Section Controlled.
Context `{JSNumber} {S : Type}.

(** Control [k] of the render is controlled by the state value [get]: in
    every state it displays [get s], and its change handler, fired with the
    text [v], leaves [get] at [conv v] ([conv] is the identity for text
    controls, [Number] for numeric ones). *)
Definition controlled (render : S -> list (control S)) (k : nat)
    (get : S -> propval) (conv : jsstring -> propval) : Prop :=
  forall s, exists e h,
    render s !! k = Some e /\
    value e = Some (get s) /\
    onChange e = Some h /\
    forall v, get (dispatch (h v) s) = conv v.

(** The same for a radio button with fixed value [own]: it is checked exactly
    when the state value equals [own], and choosing it stores [own]. *)
Definition controlled_radio (render : S -> list (control S)) (k : nat)
    (get : S -> jsstring) (own : jsstring) : Prop :=
  forall s, exists e h,
    render s !! k = Some e /\
    type_ e = Some "radio"%string /\
    value e = Some (PStr own) /\
    checked e = Some (bool_decide (get s = own)) /\
    onChange e = Some h /\
    get (dispatch (h own) s) = own.

(** The least the controlled-component claim says of control [k]: some state
    value drives it. *)
Definition driven_by_state (render : S -> list (control S)) (k : nat) : Prop :=
  (exists get conv, controlled render k get conv) \/
  (exists get own, controlled_radio render k get own).
End Controlled.

(** The outcome the delete claim asks for, for a state cell holding the
    reference [r] to the array [xs]: the setter receives a different
    reference, to [xs] without the element at [index] and otherwise in the
    same order, and every array that existed, [xs] included, reads as
    before. *)
Definition positional_removal {A : Type} (index : Z) (r : Heap.ref)
    (h : Heap.heap A) (xs : list A)
    (outcome : option (Heap.ref * Heap.heap A)) : Prop :=
  exists x r' h',
    outcome = Some (r', h') /\
    xs = take (Z.to_nat index) xs ++ x :: drop (S (Z.to_nat index)) xs /\
    r' <> r /\
    Heap.deref h' r'
    = Some (take (Z.to_nat index) xs ++ drop (S (Z.to_nat index)) xs) /\
    Heap.deref h' r = Some xs /\
    (forall r0 a, Heap.deref h r0 = Some a -> Heap.deref h' r0 = Some a).

(** A string of white space only (the empty string included). *)
Definition blank (s : jsstring) : Prop :=
  Forall (fun c => is_white_space c = true) s.

(** A non-empty string whose first and last code units are not white space. *)
Definition trimmed (t : jsstring) : Prop :=
  (exists c, head t = Some c /\ is_white_space c = false) /\
  (exists c, last t = Some c /\ is_white_space c = false).

(** Every slot of the to-do list holds a trimmed, non-empty text. *)
Definition clean_tasks (ts : list (slot jsstring)) : Prop :=
  Forall (fun t => exists x, t = Some x /\ trimmed x) ts.

(** The two decimal digits of a number below 100, tens first. *)
Definition two_digits (n : Z) : jsstring :=
  [Z.to_N (48 + n / 10); Z.to_N (48 + n mod 10)].

(** A clock reading within its ranges. *)
Definition valid_time (d : DigitalClock.Date) : Prop :=
  0 <= DigitalClock.getHours d < 24 /\
  0 <= DigitalClock.getMinutes d < 60 /\
  0 <= DigitalClock.getSeconds d < 60.

(** [Number.isSafeInteger]: an integer of magnitude at most [2^53 - 1]. *)
Definition safe_integer (c : Z) : Prop :=
  - 9007199254740991 <= c <= 9007199254740991.
End Spec.

(** * Properties of the built-ins *)

Section ArrayFacts.
Context {A : Type}.
Implicit Types (a : list (JS.slot A)) (xs : list A).

Lemma aget_lookup a (n : nat) x :
  a !! n = Some x -> JS.aget a (Z.of_nat n) = x.
Proof.
  intros Hn. unfold JS.aget.
  destruct (Z.ltb_spec (Z.of_nat n) 0) as [Hneg | _]; [lia |].
  by rewrite Nat2Z.id, Hn.
Qed.

Lemma aget_beyond a (n : nat) :
  (length a <= n)%nat -> JS.aget a (Z.of_nat n) = None.
Proof.
  intros Hn. unfold JS.aget.
  destruct (Z.ltb_spec (Z.of_nat n) 0) as [Hneg | _]; [done |].
  rewrite Nat2Z.id. by rewrite (lookup_ge_None_2 a n Hn).
Qed.

Lemma aset_in_range a (n : nat) v :
  (n < length a)%nat -> JS.aset a (Z.of_nat n) v = <[n := v]> a.
Proof.
  intros Hn. unfold JS.aset.
  destruct (Z.ltb_spec (Z.of_nat n) 0) as [Hneg | _]; [lia |].
  destruct (Z.ltb_spec (Z.of_nat n) (Z.of_nat (length a))) as [_ | Hge]; [| lia].
  by rewrite Nat2Z.id.
Qed.

Lemma aset_at_length a v :
  JS.aset a (Z.of_nat (length a)) v = a ++ [v].
Proof.
  unfold JS.aset.
  destruct (Z.ltb_spec (Z.of_nat (length a)) 0) as [Hneg | _]; [lia |].
  destruct (Z.ltb_spec (Z.of_nat (length a)) (Z.of_nat (length a)))
    as [Hlt | _]; [lia |].
  rewrite Nat2Z.id, Nat.sub_diag. reflexivity.
Qed.

Lemma filter_from_past xs (index start : Z) :
  index < start ->
  JS.filter_from (fun _ i => negb (i =? index)) start xs = xs.
Proof.
  revert start. induction xs as [| x xs IH]; intros start Hlt; [done |].
  cbn [JS.filter_from].
  destruct (Z.eqb_spec start index) as [-> | _]; [lia |]. cbn [negb].
  f_equal. apply IH. lia.
Qed.

(** Filtering out one position is positional deletion, whatever the index. *)
Lemma filter_from_delete xs (index start : Z) :
  start <= index ->
  JS.filter_from (fun _ i => negb (i =? index)) start xs
  = delete (Z.to_nat (index - start)) xs.
Proof.
  revert start. induction xs as [| x xs IH]; intros start Hle; [done |].
  cbn [JS.filter_from].
  destruct (Z.eqb_spec start index) as [-> | Hne]; cbn [negb].
  - rewrite Z.sub_diag. cbn. apply filter_from_past. lia.
  - rewrite IH by lia.
    replace (Z.to_nat (index - start)) with (S (Z.to_nat (index - (start + 1))))
      by lia.
    reflexivity.
Qed.

Lemma filter_delete xs (index : Z) :
  0 <= index ->
  JS.filter (fun _ i => negb (i =? index)) xs = delete (Z.to_nat index) xs.
Proof.
  intros Hle. unfold JS.filter. rewrite filter_from_delete by done.
  by rewrite Z.sub_0_r.
Qed.

Lemma map_from_keys {B : Type} xs (k : A -> Z -> Z) (c : A -> Z -> B) start :
  JSX.keys (JS.map_from (fun x i => {| JSX.key := k x i; JSX.child := c x i |})
              start xs)
  = JS.map_from k start xs.
Proof.
  revert start. induction xs as [| x xs IH]; intros start; [done |].
  cbn. f_equal. apply IH.
Qed.

Lemma map_from_index xs start :
  JS.map_from (fun _ i => i) start xs
  = (fun n : nat => start + Z.of_nat n) <$> seq 0 (length xs).
Proof.
  revert start. induction xs as [| x xs IH]; intros start; [done |].
  cbn [JS.map_from length seq fmap list_fmap]. f_equal; [lia |].
  rewrite IH, <- fmap_S_seq, <- list_fmap_compose.
  apply list_fmap_ext. intros _ n _. cbn. lia.
Qed.

Lemma map_from_item {B : Type} xs (f : A -> B) start :
  JS.map_from (fun x _ => f x) start xs = f <$> xs.
Proof.
  revert start. induction xs as [| x xs IH]; intros start; [done |].
  cbn. f_equal. apply IH.
Qed.

End ArrayFacts.

Section SwapFacts.
Context {A : Type}.
Implicit Types (a : list (JS.slot A)).

(** The destructuring swap of two slots that both exist. *)
Lemma assign_pair_in_range a (i j : nat) x y :
  a !! i = Some x -> a !! j = Some y ->
  JS.assign_pair a (Z.of_nat i) (Z.of_nat j)
    (JS.aget a (Z.of_nat j), JS.aget a (Z.of_nat i))
  = <[j := x]> (<[i := y]> a).
Proof.
  intros Hi Hj. unfold JS.assign_pair. cbn [fst snd].
  rewrite (aget_lookup a i x Hi), (aget_lookup a j y Hj).
  rewrite (aset_in_range a i) by (eapply lookup_lt_Some; eauto).
  rewrite aset_in_range; [done |].
  rewrite length_insert. eapply lookup_lt_Some; eauto.
Qed.

(** The same assignment when the left target is one past the end: the array
    grows by one slot and the in-range slot receives [undefined]. *)
Lemma assign_pair_past_end a (j : nat) y :
  a !! j = Some y ->
  JS.assign_pair a (Z.of_nat (length a)) (Z.of_nat j)
    (JS.aget a (Z.of_nat j), JS.aget a (Z.of_nat (length a)))
  = <[j := None]> a ++ [y].
Proof.
  intros Hj. unfold JS.assign_pair. cbn [fst snd].
  rewrite (aget_lookup a j y Hj), (aget_beyond a (length a)) by lia.
  rewrite aset_at_length.
  assert (j < length a)%nat as Hlt by (eapply lookup_lt_Some; eauto).
  rewrite aset_in_range by (rewrite length_app; cbn; lia).
  by rewrite insert_app_l.
Qed.

Lemma swap_twice a (i j : nat) x y :
  i <> j -> a !! i = Some x -> a !! j = Some y ->
  <[j := y]> (<[i := x]> (<[j := x]> (<[i := y]> a))) = a.
Proof.
  intros Hne Hi Hj.
  rewrite (list_insert_insert_ne _ i j x x) by done.
  rewrite list_insert_insert_eq.
  rewrite list_insert_insert_eq.
  rewrite (list_insert_id a i x Hi).
  by apply list_insert_id.
Qed.

Lemma swap_adjacent_Permutation (l : list A) (n : nat) p q :
  l !! n = Some p -> l !! S n = Some q ->
  <[n := q]> (<[S n := p]> l) ≡ₚ l.
Proof.
  revert n. induction l as [| x l IH]; intros n Hp Hq; [done |].
  destruct n as [| n].
  - destruct l as [| y l]; [done |].
    cbn in Hp, Hq. injection Hp as ->. injection Hq as ->.
    cbn. apply perm_swap.
  - cbn in Hp, Hq. cbn. apply perm_skip. by apply IH.
Qed.

End SwapFacts.

(** * The to-do list *)

Section ToDoListFacts.
Import React ToDoList.

Example trim_keeps_inner_space :
  JS.trim (JS.str "  Buy  milk ") = JS.str "Buy  milk".
Proof. reflexivity. Qed.

Example trim_blank : JS.trim (JS.str "   ") = [].
Proof. reflexivity. Qed.

Lemma moveTaskUp_tasks (s : state) (n : nat) p q :
  tasks s !! n = Some p -> tasks s !! S n = Some q ->
  dispatch (moveTaskUp (Z.of_nat (S n))) s
  = {| tasks := <[S n := p]> (<[n := q]> (tasks s)); newTask := newTask s |}.
Proof.
  intros Hp Hq. unfold dispatch, moveTaskUp.
  destruct (Z.eqb_spec (Z.of_nat (S n)) 0) as [H0 | _]; [lia |].
  replace (Z.of_nat (S n) - 1) with (Z.of_nat n) by lia.
  by rewrite (assign_pair_in_range _ n (S n) p q Hp Hq).
Qed.

Lemma moveTaskDown_inner (s : state) (n : nat) p q :
  tasks s !! n = Some p -> tasks s !! S n = Some q ->
  dispatch (moveTaskDown (Z.of_nat n)) s
  = {| tasks := <[n := q]> (<[S n := p]> (tasks s)); newTask := newTask s |}.
Proof.
  intros Hp Hq. unfold dispatch, moveTaskDown.
  destruct (Z.eqb_spec (Z.of_nat n) (-1)) as [H0 | _]; [lia |].
  replace (Z.of_nat n + 1) with (Z.of_nat (S n)) by lia.
  by rewrite (assign_pair_in_range _ (S n) n q p Hq Hp).
Qed.

(** Below the last index [moveTaskDown] is the adjacent swap, so the new list
    is a permutation of the old one. *)
Lemma moveTaskDown_inner_Permutation (s : state) (index : Z) :
  0 <= index < Z.of_nat (length (tasks s)) - 1 ->
  tasks (dispatch (moveTaskDown index) s) ≡ₚ tasks s.
Proof.
  intros Hi.
  destruct (lookup_lt_is_Some_2 (tasks s) (Z.to_nat index)) as [p Hp]; [lia |].
  destruct (lookup_lt_is_Some_2 (tasks s) (S (Z.to_nat index))) as [q Hq];
    [lia |].
  rewrite <- (Z2Nat.id index) by lia.
  rewrite (moveTaskDown_inner s _ p q Hp Hq). cbn [tasks].
  by apply swap_adjacent_Permutation.
Qed.

(** At the last index the guard [index === -1] does not fire: the write to
    [updatedTasks[index + 1]] appends the last task, and the write to
    [updatedTasks[index]] stores the [undefined] read past the end. *)
Lemma moveTaskDown_last (s : state) (n : nat) p :
  length (tasks s) = S n -> tasks s !! n = Some p ->
  dispatch (moveTaskDown (Z.of_nat n)) s
  = {| tasks := <[n := None]> (tasks s) ++ [p]; newTask := newTask s |}.
Proof.
  intros Hlen Hp. unfold dispatch, moveTaskDown.
  destruct (Z.eqb_spec (Z.of_nat n) (-1)) as [H0 | _]; [lia |].
  replace (Z.of_nat n + 1) with (Z.of_nat (length (tasks s))) by lia.
  by rewrite (assign_pair_past_end _ n p Hp).
Qed.

(** C2. [handleAddTask] validates its input and does nothing else: when
    [newTask.trim()] is empty the state is left as it is; otherwise the
    trimmed text becomes the last task, every earlier task keeps its place,
    and [newTask] becomes the empty string. *)
Theorem handleAddTask_validates (s : state) :
  (JS.trim (newTask s) = [] -> dispatch handleAddTask s = s) /\
  (JS.trim (newTask s) <> [] ->
   let s' := dispatch handleAddTask s in
   tasks s' = tasks s ++ [Some (JS.trim (newTask s))] /\
   last (tasks s') = Some (Some (JS.trim (newTask s))) /\
   (forall i, (i < length (tasks s))%nat -> tasks s' !! i = tasks s !! i) /\
   newTask s' = []).
Proof.
  unfold dispatch, handleAddTask. split; intros Htrim.
  - rewrite bool_decide_eq_false_2 by (by intros Hne). by destruct s.
  - rewrite bool_decide_eq_true_2 by done. cbn.
    repeat split.
    + by rewrite last_snoc.
    + intros i Hi. by rewrite lookup_app_l.
Qed.

Lemma handleAddTask_validates_witness :
  dispatch handleAddTask {| tasks := tasks init; newTask := JS.str "   " |}
  = {| tasks := tasks init; newTask := JS.str "   " |} /\
  tasks (dispatch handleAddTask
           {| tasks := tasks init; newTask := JS.str " Read  " |})
  = tasks init ++ [Some (JS.str "Read")] /\
  newTask (dispatch handleAddTask
             {| tasks := tasks init; newTask := JS.str " Read  " |})
  = [].
Proof.
  destruct (handleAddTask_validates
              {| tasks := tasks init; newTask := JS.str "   " |})
    as [Hblank _].
  destruct (handleAddTask_validates
              {| tasks := tasks init; newTask := JS.str " Read  " |})
    as [_ Htyped].
  split; [apply Hblank; reflexivity |].
  destruct Htyped as (Happ & _ & _ & Hnew); [by vm_compute |].
  split; [exact Happ | exact Hnew].
Defined.

(** C9. [moveTaskUp] is a guarded adjacent swap: index 0 changes nothing; for
    [1 <= i < length] the tasks at [i-1] and [i] trade places, every other
    task and the input field stay, and a second [moveTaskUp(i)] on the
    re-rendered list restores the first one. *)
Theorem moveTaskUp_guarded_swap (s : state) :
  dispatch (moveTaskUp 0) s = s /\
  forall i : Z,
    1 <= i < Z.of_nat (length (tasks s)) ->
    let s' := dispatch (moveTaskUp i) s in
    length (tasks s') = length (tasks s) /\
    tasks s' !! Z.to_nat (i - 1) = tasks s !! Z.to_nat i /\
    tasks s' !! Z.to_nat i = tasks s !! Z.to_nat (i - 1) /\
    (forall j : nat, j <> Z.to_nat i -> j <> Z.to_nat (i - 1) ->
       tasks s' !! j = tasks s !! j) /\
    newTask s' = newTask s /\
    dispatch (moveTaskUp i) s' = s.
Proof.
  split; [by destruct s |].
  intros i Hi s'. subst s'.
  destruct (Z.to_nat i) as [| n] eqn:Hn; [lia |].
  replace (Z.to_nat (i - 1)) with n by lia.
  replace i with (Z.of_nat (S n)) by lia.
  destruct (lookup_lt_is_Some_2 (tasks s) n) as [p Hp]; [lia |].
  destruct (lookup_lt_is_Some_2 (tasks s) (S n)) as [q Hq]; [lia |].
  rewrite (moveTaskUp_tasks s n p q Hp Hq). cbn [tasks newTask].
  assert (n < length (tasks s))%nat as Hlt by (eapply lookup_lt_Some; eauto).
  assert (S n < length (tasks s))%nat as HltS by (eapply lookup_lt_Some; eauto).
  repeat split.
  - by rewrite !length_insert.
  - rewrite list_lookup_insert_ne by lia.
    by rewrite list_lookup_insert_eq, Hq.
  - rewrite list_lookup_insert_eq by (rewrite length_insert; lia). by rewrite Hp.
  - intros j Hj1 Hj2. by rewrite !list_lookup_insert_ne by lia.
  - erewrite moveTaskUp_tasks; cbn [tasks newTask].
    + rewrite (swap_twice (tasks s) n (S n) p q) by (done || lia).
      by destruct s.
    + rewrite list_lookup_insert_ne by lia. by apply list_lookup_insert_eq.
    + apply list_lookup_insert_eq. rewrite length_insert; lia.
Qed.

Lemma moveTaskUp_guarded_swap_witness :
  1 <= 2 < Z.of_nat (length (tasks init)) /\
  tasks (dispatch (moveTaskUp 2) init)
  = [Some (JS.str "Wake up"); Some (JS.str "Eat Breakfast");
     Some (JS.str "Brush Teeth")] /\
  dispatch (moveTaskUp 2) (dispatch (moveTaskUp 2) init) = init.
Proof.
  assert (1 <= 2 < Z.of_nat (length (tasks init))) as Hi by (cbn; lia).
  destruct (moveTaskUp_guarded_swap init) as [_ Hswap].
  destruct (Hswap 2 Hi) as (_ & _ & _ & _ & _ & Hinv).
  split; [exact Hi |]. split; [reflexivity | exact Hinv].
Defined.

(** C3 (the code departs from it). With two tasks, [moveTaskDown(1)] at the
    last valid index does not leave the list unchanged: the list grows to
    three slots, the second one [undefined], so it is neither equal to nor a
    permutation of the list before. *)
Theorem moveTaskDown_last_index_grows :
  tasks (dispatch (moveTaskDown 1)
           {| tasks := [Some (JS.str "a"); Some (JS.str "b")];
              newTask := [] |})
  = [Some (JS.str "a"); None; Some (JS.str "b")] /\
  ~ tasks (dispatch (moveTaskDown 1)
             {| tasks := [Some (JS.str "a"); Some (JS.str "b")];
                newTask := [] |})
    ≡ₚ [Some (JS.str "a"); Some (JS.str "b")].
Proof.
  split; [reflexivity |].
  intros Hperm. apply Permutation_length in Hperm. discriminate Hperm.
Qed.

End ToDoListFacts.

(** * The counters *)

Section NumberFacts.
Import Spec.

Lemma round_double_exact (x : Z) :
  Z.abs x <= JS.two_53 -> JS.round_double x = x.
Proof.
  intros Hx. unfold JS.round_double.
  by destruct (Z.leb_spec (Z.abs x) JS.two_53) as [_ | Hgt]; [| lia].
Qed.

Lemma number_add_safe (a b : Z) :
  safe_integer (a + b) -> JS.number_add a b = a + b.
Proof.
  intros Hsafe. apply round_double_exact.
  unfold safe_integer, JS.two_53 in *. lia.
Qed.

Lemma number_sub_safe (a b : Z) :
  safe_integer (a - b) -> JS.number_sub a b = a - b.
Proof.
  intros Hsafe. apply round_double_exact.
  unfold safe_integer, JS.two_53 in *. lia.
Qed.

(** At [2^53] adding one is lost in the rounding; two steps further up the
    tie goes the other way. *)
Example number_add_rounds_at_two_53 :
  JS.number_add JS.two_53 1 = JS.two_53 /\
  JS.number_add (JS.two_53 + 2) 1 = JS.two_53 + 4.
Proof. by vm_compute. Qed.

End NumberFacts.

Section CounterFacts.
Import React Spec.

(** An updater-style increment adds one to whatever the count is when the
    queue is processed; the snapshot it was created in plays no part. *)
Lemma handleIncrement_reads_pending (snap st : UpdaterCounter.state) :
  UpdaterCounter.count (flush (UpdaterCounter.handleIncrement snap) st)
  = JS.number_add (UpdaterCounter.count st) 1.
Proof. reflexivity. Qed.

Lemma handleAddCount_reads_pending (snap st : EffectCounter.state) :
  EffectCounter.count (flush (EffectCounter.handleAddCount snap) st)
  = JS.number_add (EffectCounter.count st) 1.
Proof. reflexivity. Qed.

(** [Counter.increment] stores the snapshot's count plus one, whatever is
    pending. *)
Lemma increment_reads_snapshot (snap st : UseStateCounter.state) :
  UseStateCounter.count (flush (UseStateCounter.increment snap) st)
  = JS.number_add (UseStateCounter.count snap) 1.
Proof. reflexivity. Qed.


(** Outside the safe integers the updater-style counter stops counting: at
    [2^53] two increments before a re-render leave [2^53]. *)
Example handleIncrement_twice_at_two_53 :
  UpdaterCounter.count
    (batch [UpdaterCounter.handleIncrement; UpdaterCounter.handleIncrement]
       {| UpdaterCounter.count := JS.two_53 |})
  = JS.two_53.
Proof. by vm_compute. Qed.



End CounterFacts.

(** * The car examples *)

Section CarFacts.
Context `{JS.JSNumber}.
Import React.

(** Each queued change is a function of the car current when the queue is
    processed, so it composes with any other pending change. *)
Lemma car_change_reads_pending (snap st : CarDetails.state) (v : JS.jsstring) :
  CarDetails.car (flush (CarDetails.handleYearChange v snap) st)
  = {| CarDetails.year := JS.Number v;
       CarDetails.make := CarDetails.make (CarDetails.car st);
       CarDetails.model := CarDetails.model (CarDetails.car st) |}.
Proof. reflexivity. Qed.

(** C7. Each change handler of the car-details example replaces one field of
    the [Car] object and copies the other two. *)
Theorem car_change_updates_one_field
    (year : JS.num) (make model : JS.jsstring) (s : JS.jsstring) :
  let c := {| CarDetails.car :=
                {| CarDetails.year := year; CarDetails.make := make;
                   CarDetails.model := model |} |} in
  CarDetails.car (dispatch (CarDetails.handleYearChange s) c)
  = {| CarDetails.year := JS.Number s; CarDetails.make := make;
       CarDetails.model := model |} /\
  CarDetails.car (dispatch (CarDetails.handleMakeChange s) c)
  = {| CarDetails.year := year; CarDetails.make := s;
       CarDetails.model := model |} /\
  CarDetails.car (dispatch (CarDetails.handleModelChange s) c)
  = {| CarDetails.year := year; CarDetails.make := make;
       CarDetails.model := s |}.
Proof. repeat split. Qed.

(** C10. [handleAddCar] appends the car described by the three form fields
    after the cars already listed, which all stay where they are, empties
    [carMake] and [carModel], and sets [carYear] to the current year. *)
Theorem handleAddCar_appends_and_clears
    (thisYear : JS.num) (s : CarInventory.state) :
  let s' := dispatch (CarInventory.handleAddCar thisYear) s in
  CarInventory.cars s'
  = CarInventory.cars s
    ++ [{| CarInventory.year := CarInventory.carYear s;
           CarInventory.make := CarInventory.carMake s;
           CarInventory.model := CarInventory.carModel s |}] /\
  length (CarInventory.cars s') = S (length (CarInventory.cars s)) /\
  (forall i : nat, (i < length (CarInventory.cars s))%nat ->
     CarInventory.cars s' !! i = CarInventory.cars s !! i) /\
  CarInventory.carMake s' = [] /\
  CarInventory.carModel s' = [] /\
  CarInventory.carYear s' = thisYear.
Proof.
  cbn. repeat split.
  - rewrite length_app. cbn. lia.
  - intros i Hi. by rewrite lookup_app_l.
Qed.

End CarFacts.

(** * Deleting a list item *)

Section DeleteFacts.
Context `{JS.JSNumber}.
Import React Spec.

Lemma heap_filter_positional_removal {A : Type} (index : Z) (r : Heap.ref)
    (h : Heap.heap A) (xs : list A) :
  Heap.deref h r = Some xs ->
  0 <= index < Z.of_nat (length xs) ->
  positional_removal index r h xs
    (Heap.filter (fun _ i => negb (i =? index)) r h).
Proof.
  intros Hr Hi. unfold positional_removal, Heap.filter, Heap.alloc.
  rewrite Hr. unfold Heap.deref in *.
  destruct (lookup_lt_is_Some_2 xs (Z.to_nat index)) as [x Hx]; [lia |].
  exists x, (length h), (h ++ [JS.filter (fun _ i => negb (i =? index)) xs]).
  assert (r < length h)%nat as Hlt by (eapply lookup_lt_Some; eauto).
  repeat split.
  - symmetry. by apply take_drop_middle.
  - lia.
  - rewrite lookup_app_r by lia. rewrite Nat.sub_diag. cbn.
    by rewrite filter_delete, delete_take_drop by lia.
  - by rewrite lookup_app_l.
  - intros r0 a Hr0. apply lookup_app_l_Some. exact Hr0.
Qed.

Lemma handleDeleteTask_tasks (index : Z) (s : ToDoList.state) :
  0 <= index ->
  dispatch (ToDoList.handleDeleteTask index) s
  = {| ToDoList.tasks := delete (Z.to_nat index) (ToDoList.tasks s);
       ToDoList.newTask := ToDoList.newTask s |}.
Proof.
  intros Hi. unfold dispatch, ToDoList.handleDeleteTask. cbn.
  by rewrite filter_delete.
Qed.

Lemma handleRemoveCar_cars (index : Z) (s : CarInventory.state) :
  0 <= index ->
  CarInventory.cars (dispatch (CarInventory.handleRemoveCar index) s)
  = delete (Z.to_nat index) (CarInventory.cars s).
Proof.
  intros Hi. unfold dispatch, CarInventory.handleRemoveCar. cbn.
  by rewrite filter_delete.
Qed.

Lemma handleRemoveFood_food (index : Z) (s : UpdateArrays.state) :
  0 <= index ->
  UpdateArrays.food (dispatch (UpdateArrays.handleRemoveFood index) s)
  = delete (Z.to_nat index) (UpdateArrays.food s).
Proof.
  intros Hi. unfold dispatch, UpdateArrays.handleRemoveFood. cbn.
  by rewrite filter_delete.
Qed.

(** C5. [handleDeleteTask], [handleRemoveCar] and [handleRemoveFood], called
    with a valid index, hand the setter a new array: the old one without the
    element at that index, the others in their order; the array the state
    held before is not written to. *)
Theorem delete_is_positional_removal (index : Z) :
  0 <= index ->
  (forall r h xs,
     Heap.deref h r = Some xs -> index < Z.of_nat (length xs) ->
     positional_removal index r h xs (ByReference.handleDeleteTask index r h)) /\
  (forall r (h : Heap.heap CarInventory.Car) xs,
     Heap.deref h r = Some xs -> index < Z.of_nat (length xs) ->
     positional_removal index r h xs (ByReference.handleRemoveCar index r h)) /\
  (forall r h xs,
     Heap.deref h r = Some xs -> index < Z.of_nat (length xs) ->
     positional_removal index r h xs (ByReference.handleRemoveFood index r h)) /\
  (forall s : ToDoList.state,
     ToDoList.tasks (dispatch (ToDoList.handleDeleteTask index) s)
     = take (Z.to_nat index) (ToDoList.tasks s)
       ++ drop (S (Z.to_nat index)) (ToDoList.tasks s)) /\
  (forall s : CarInventory.state,
     CarInventory.cars (dispatch (CarInventory.handleRemoveCar index) s)
     = take (Z.to_nat index) (CarInventory.cars s)
       ++ drop (S (Z.to_nat index)) (CarInventory.cars s)) /\
  (forall s : UpdateArrays.state,
     UpdateArrays.food (dispatch (UpdateArrays.handleRemoveFood index) s)
     = take (Z.to_nat index) (UpdateArrays.food s)
       ++ drop (S (Z.to_nat index)) (UpdateArrays.food s)).
Proof.
  intros Hi. repeat split.
  - intros r h xs Hr Hlt. by apply heap_filter_positional_removal.
  - intros r h xs Hr Hlt. by apply heap_filter_positional_removal.
  - intros r h xs Hr Hlt. by apply heap_filter_positional_removal.
  - intros s. rewrite handleDeleteTask_tasks by done. cbn.
    apply delete_take_drop.
  - intros s. rewrite handleRemoveCar_cars by done. apply delete_take_drop.
  - intros s. rewrite handleRemoveFood_food by done. apply delete_take_drop.
Qed.

End DeleteFacts.

Lemma delete_is_positional_removal_witness :
  0 <= 1 /\
  Spec.positional_removal 1 0%nat [UpdateArrays.food UpdateArrays.init]
    (UpdateArrays.food UpdateArrays.init)
    (ByReference.handleRemoveFood 1 0%nat
       [UpdateArrays.food UpdateArrays.init]) /\
  ByReference.handleRemoveFood 1 0%nat
    [[JS.str "Apple"; JS.str "Banana"; JS.str "Orange"]]
  = Some (1%nat, [[JS.str "Apple"; JS.str "Banana"; JS.str "Orange"];
                  [JS.str "Apple"; JS.str "Orange"]]) /\
  UpdateArrays.food
    (React.dispatch (UpdateArrays.handleRemoveFood 1) UpdateArrays.init)
  = [JS.str "Apple"; JS.str "Orange"].
Proof.
  assert (0 <= 1) as Hi by lia.
  destruct (@delete_is_positional_removal Spec.opaque_numbers 1 Hi)
    as (_ & _ & Hfood & _ & _ & Hval).
  split; [exact Hi |]. split; [| split].
  - apply Hfood; [reflexivity | cbn; lia].
  - reflexivity.
  - exact (Hval UpdateArrays.init).
Defined.

(** * Keys of rendered lists *)

Section KeyFacts.
Context `{JS.JSNumber}.
Import React JSX.

Lemma index_keys {A B : Type} (xs : list A) (c : A -> Z -> B) :
  keys (JS.map (fun x i => {| key := i; child := c x i |}) xs)
  = Z.of_nat <$> seq 0 (length xs).
Proof.
  unfold JS.map. rewrite (map_from_keys xs (fun _ i => i) c).
  rewrite map_from_index. apply list_fmap_ext. intros _ n _. lia.
Qed.

Lemma index_keys_NoDup (n : nat) : NoDup (Z.of_nat <$> seq 0 n).
Proof. apply (NoDup_fmap_2 _), NoDup_seq. Qed.

Lemma List_keys (props : RenderLists.Props) :
  keys (RenderLists.List props)
  = RenderLists.id <$> RenderLists.items props.
Proof.
  unfold RenderLists.List, JS.map.
  rewrite (map_from_keys _ (fun item _ => RenderLists.id item)
             (fun item _ => item)).
  apply map_from_item.
Qed.

(** Two items of [List] that share an [id] share a key. *)
Example List_duplicate_id_duplicate_key :
  keys (RenderLists.List
          {| RenderLists.items :=
               [ {| RenderLists.id := 1; RenderLists.name := JS.str "Apple";
                    RenderLists.calories := 95 |};
                 {| RenderLists.id := 1; RenderLists.name := JS.str "Bread";
                    RenderLists.calories := 80 |} ];
             RenderLists.category := JS.str "Mixed" |})
  = [1; 1].
Proof. reflexivity. Qed.

Lemma map_from_lookup {A B : Type} (f : A -> Z -> B) (start : Z)
    (xs : list A) (n : nat) :
  JS.map_from f start xs !! n
  = (fun x => f x (start + Z.of_nat n)) <$> xs !! n.
Proof.
  revert start n. induction xs as [| x xs IH]; intros start n; [done |].
  destruct n as [| n]; cbn [JS.map_from].
  - cbn. do 2 f_equal. lia.
  - cbn [lookup list_lookup]. rewrite IH.
    destruct (xs !! n) as [y |]; [| done]. cbn. do 2 f_equal. lia.
Qed.

Lemma index_keyed_lookup {A : Type} (xs : list A) (n : nat) :
  JS.map (fun x i => {| key := i; child := x |}) xs !! n
  = (fun x => {| key := Z.of_nat n; child := x |}) <$> xs !! n.
Proof. unfold JS.map. by rewrite map_from_lookup. Qed.

(** C6, amended. [List] keys each item by its [id], a function of the item
    alone, and the keys of one list are pairwise distinct exactly when the
    ids are, as they are in the two lists [App] renders.  The to-do list, the
    car inventory and the food list key each item by its index: the child at
    position [n] of the render is the item at index [n] of the array, with
    key [n], so the keys of one render are the positions [0 .. length-1],
    pairwise distinct. *)
Theorem list_keys_by_id_or_by_index :
  (forall props : RenderLists.Props,
     RenderLists.List props
     = (fun item => {| key := RenderLists.id item; child := item |})
       <$> RenderLists.items props /\
     keys (RenderLists.List props)
     = RenderLists.id <$> RenderLists.items props /\
     (NoDup (keys (RenderLists.List props))
      <-> NoDup (RenderLists.id <$> RenderLists.items props))) /\
  Forall (fun rendered => NoDup (keys rendered)) RenderLists.App /\
  (forall s : ToDoList.state,
     (forall n : nat,
        ToDoList.render_items s !! n
        = (fun task => {| key := Z.of_nat n; child := task |})
          <$> ToDoList.tasks s !! n) /\
     keys (ToDoList.render_items s)
     = Z.of_nat <$> seq 0 (length (ToDoList.tasks s)) /\
     NoDup (keys (ToDoList.render_items s))) /\
  (forall s : CarInventory.state,
     (forall n : nat,
        CarInventory.render_items s !! n
        = (fun car => {| key := Z.of_nat n; child := car |})
          <$> CarInventory.cars s !! n) /\
     keys (CarInventory.render_items s)
     = Z.of_nat <$> seq 0 (length (CarInventory.cars s)) /\
     NoDup (keys (CarInventory.render_items s))) /\
  (forall s : UpdateArrays.state,
     (forall n : nat,
        UpdateArrays.render_items s !! n
        = (fun item => {| key := Z.of_nat n; child := item |})
          <$> UpdateArrays.food s !! n) /\
     keys (UpdateArrays.render_items s)
     = Z.of_nat <$> seq 0 (length (UpdateArrays.food s)) /\
     NoDup (keys (UpdateArrays.render_items s))).
Proof.
  split; [| split; [| split; [| split]]].
  - intros props. rewrite List_keys. split; [| done].
    unfold RenderLists.List, JS.map. apply map_from_item.
  - apply (bool_decide_unpack _). by vm_compute.
  - intros s. split; [intros n; apply index_keyed_lookup |].
    unfold ToDoList.render_items. rewrite index_keys.
    split; [done | apply index_keys_NoDup].
  - intros s. split; [intros n; apply index_keyed_lookup |].
    unfold CarInventory.render_items. rewrite index_keys.
    split; [done | apply index_keys_NoDup].
  - intros s. split; [intros n; apply index_keyed_lookup |].
    unfold UpdateArrays.render_items. rewrite index_keys.
    split; [done | apply index_keys_NoDup].
Qed.

End KeyFacts.

(** The task "b" is rendered with key 1, and after [handleDeleteTask(0)]
    removes the task before it, with key 0. *)
Example ToDoList_keys_across_a_delete :
  ToDoList.render_items
    {| ToDoList.tasks := [Some (JS.str "a"); Some (JS.str "b")];
       ToDoList.newTask := [] |}
  = [ {| JSX.key := 0; JSX.child := Some (JS.str "a") |};
      {| JSX.key := 1; JSX.child := Some (JS.str "b") |} ] /\
  ToDoList.render_items
    (React.dispatch (ToDoList.handleDeleteTask 0)
       {| ToDoList.tasks := [Some (JS.str "a"); Some (JS.str "b")];
          ToDoList.newTask := [] |})
  = [ {| JSX.key := 0; JSX.child := Some (JS.str "b") |} ].
Proof. split; reflexivity. Qed.

(** C6 as stated fails on the to-do list: no function of the task alone gives
    the keys of every render, since the same task is keyed 1 in one render and
    0 in the next. *)
Lemma ToDoList_key_follows_position :
  ~ exists key_of : JS.slot JS.jsstring -> Z,
      forall s : ToDoList.state,
        JSX.keys (ToDoList.render_items s) = key_of <$> ToDoList.tasks s.
Proof.
  intros [key_of Hkeys].
  pose proof (Hkeys {| ToDoList.tasks := [Some (JS.str "a"); Some (JS.str "b")];
                       ToDoList.newTask := [] |}) as Hbefore.
  pose proof (Hkeys (React.dispatch (ToDoList.handleDeleteTask 0)
                       {| ToDoList.tasks :=
                            [Some (JS.str "a"); Some (JS.str "b")];
                          ToDoList.newTask := [] |})) as Hafter.
  cbn in Hbefore, Hafter.
  injection Hbefore as _ Hb. injection Hafter as Hb'.
  rewrite <- Hb in Hb'. discriminate Hb'.
Qed.

(** * The window-size effect *)

Section WindowFacts.
Import React WindowSize.

Lemma remove_listener_snoc (l : JS.jsstring * fn) ls :
  l ∉ ls -> remove_listener l (ls ++ [l]) = ls.
Proof.
  induction ls as [| l' ls IH]; intros Hnot; cbn.
  - by rewrite bool_decide_eq_true_2.
  - apply not_elem_of_cons in Hnot as [Hne Hnot].
    rewrite bool_decide_eq_false_2 by done. f_equal. by apply IH.
Qed.

Lemma render_handleResize_fresh (w : window) (type : JS.jsstring) :
  (type, render_handleResize w) ∉ listeners w.
Proof.
  intros Hin. apply (infinite_is_fresh (snd <$> listeners w)).
  apply list_elem_of_fmap. by exists (type, render_handleResize w).
Qed.

(** For any handler object not yet registered for ['resize'], the effect
    registers it and the cleanup, run on the window the effect left, removes
    it again. *)
Lemma effect_then_cleanup (h : fn) (w : window) :
  (JS.str "resize", h) ∉ listeners w ->
  listeners (fst (effect h w)) = listeners w ++ [(JS.str "resize", h)] /\
  listeners (snd (effect h w) (fst (effect h w))) = listeners w.
Proof.
  intros Hnot. cbn [effect fst snd]. cbn [listeners addEventListener
    removeEventListener console_log].
  rewrite bool_decide_eq_false_2 by done.
  split; [done |]. by apply remove_listener_snoc.
Qed.

(** Whenever it runs, the cleanup takes away the handler of its own effect
    for ['resize'] and nothing else. *)
Lemma cleanup_removes_own_handler (h : fn) (w w' : window) :
  listeners (snd (effect h w) w')
  = remove_listener (JS.str "resize", h) (listeners w').
Proof. reflexivity. Qed.

(** C8. The effect adds one listener, [handleResize] for ['resize']; its
    cleanup removes that handler from that event; mounting and unmounting
    leaves the window's registered listeners as they were. *)
Theorem resize_effect_cleanup_restores_listeners (w : window) :
  listeners (fst (mount w))
  = listeners w ++ [(JS.str "resize", render_handleResize w)] /\
  listeners (snd (mount w) (fst (mount w))) = listeners w /\
  listeners (mount_unmount w) = listeners w.
Proof.
  pose proof (effect_then_cleanup (render_handleResize w) w
                (render_handleResize_fresh w _)) as [Hadd Hback].
  unfold mount_unmount, mount in *.
  split; [exact Hadd |]. split; [exact Hback |].
  destruct (effect (render_handleResize w) w) as [w1 cleanup]. exact Hback.
Qed.

End WindowFacts.

(** * Controlled form controls *)

Section ControlledFacts.
Context `{JS.JSNumber}.
Import JS React JSX Spec.

Ltac controlled_by_render :=
  intros s; do 2 eexists; repeat split.

(** C1, amended. The six controls of the onChange example, the colour input,
    the to-do input, and the three inputs of each car example are controlled:
    each displays its state value (the radio buttons are checked when
    [shipping] equals their own value) and its change handler stores the new
    text there, through [Number] for the numeric inputs.  The text input of
    the food list is not: it has no [value], [checked] or [onChange] prop;
    [handleAddFood] reads its text from the document and empties it there. *)
Theorem form_controls_controlled_except_food_input :
  ((forall s, length (OnChangeExample.render_controls s) = 6%nat) /\
   controlled OnChangeExample.render_controls 0
     (fun s => PStr (OnChangeExample.name s)) PStr /\
   controlled OnChangeExample.render_controls 1
     (fun s => PNum (OnChangeExample.quantity s)) (fun v => PNum (Number v)) /\
   controlled OnChangeExample.render_controls 2
     (fun s => PStr (OnChangeExample.comment s)) PStr /\
   controlled OnChangeExample.render_controls 3
     (fun s => PStr (OnChangeExample.payment s)) PStr /\
   controlled_radio OnChangeExample.render_controls 4
     OnChangeExample.shipping (str "Pickup") /\
   controlled_radio OnChangeExample.render_controls 5
     OnChangeExample.shipping (str "Delivery")) /\
  ((forall s, length (ColorPicker.render_controls s) = 1%nat) /\
   controlled ColorPicker.render_controls 0
     (fun s => PStr (ColorPicker.color s)) PStr) /\
  ((forall s, length (ToDoList.render_controls s) = 1%nat) /\
   controlled ToDoList.render_controls 0
     (fun s => PStr (ToDoList.newTask s)) PStr) /\
  ((forall s, length (CarInventory.render_controls s) = 3%nat) /\
   controlled CarInventory.render_controls 0
     (fun s => PNum (CarInventory.carYear s)) (fun v => PNum (Number v)) /\
   controlled CarInventory.render_controls 1
     (fun s => PStr (CarInventory.carMake s)) PStr /\
   controlled CarInventory.render_controls 2
     (fun s => PStr (CarInventory.carModel s)) PStr) /\
  ((forall s, length (CarDetails.render_controls s) = 3%nat) /\
   controlled CarDetails.render_controls 0
     (fun s => PNum (CarDetails.year (CarDetails.car s)))
     (fun v => PNum (Number v)) /\
   controlled CarDetails.render_controls 1
     (fun s => PStr (CarDetails.make (CarDetails.car s))) PStr /\
   controlled CarDetails.render_controls 2
     (fun s => PStr (CarDetails.model (CarDetails.car s))) PStr) /\
  ((forall s, exists e,
      UpdateArrays.render_controls s = [e] /\
      value e = None /\ checked e = None /\ onChange e = None) /\
   (forall doc s,
      snd (UpdateArrays.handleAddFood doc) = {| UpdateArrays.foodInput := [] |} /\
      UpdateArrays.food (dispatch (fst (UpdateArrays.handleAddFood doc)) s)
      = UpdateArrays.food s ++ [UpdateArrays.foodInput doc])).
Proof.
  repeat match goal with |- _ /\ _ => split end.
  all: try (intros s; reflexivity).
  all: try (controlled_by_render; fail).
Qed.

End ControlledFacts.

(** C1 as stated fails on the food list: no state value drives its text
    input, which the render writes without [value] and without [onChange]. *)
Lemma foodInput_not_driven_by_state :
  ~ Spec.driven_by_state
      (@UpdateArrays.render_controls Spec.opaque_numbers) 0.
Proof.
  intros [(get & conv & Hc) | (get & own & Hc)];
    destruct (Hc UpdateArrays.init) as (e & h & He & Hrest);
    cbn in He; injection He as <-.
  - destruct Hrest as (Hvalue & _). discriminate Hvalue.
  - destruct Hrest as (_ & Hvalue & _). discriminate Hvalue.
Qed.

(** * Further properties: [trim] and the to-do list *)

Section TrimFacts.
Import Spec.

Lemma trimStart_decompose (s : JS.jsstring) :
  exists pre, s = pre ++ JS.trimStart s /\ blank pre.
Proof.
  unfold blank.
  induction s as [| c s (pre & Hs & Hpre)]; [by exists [] |].
  cbn [JS.trimStart]. destruct (JS.is_white_space c) eqn:Hc.
  - exists (c :: pre). split; [cbn; by f_equal | by constructor].
  - by exists [].
Qed.

Lemma trimStart_head (s : JS.jsstring) c :
  head (JS.trimStart s) = Some c -> JS.is_white_space c = false.
Proof.
  induction s as [| c' s IH]; [done |].
  cbn [JS.trimStart]. destruct (JS.is_white_space c') eqn:Hc; [done |].
  cbn. by intros [= <-].
Qed.

Lemma trimStart_nil_iff (s : JS.jsstring) : JS.trimStart s = [] <-> blank s.
Proof.
  unfold blank. induction s as [| c s IH]; [done |].
  cbn [JS.trimStart]. destruct (JS.is_white_space c) eqn:Hc.
  - rewrite IH. split; [by constructor | by inversion 1].
  - split; [done |]. inversion 1; congruence.
Qed.

Lemma trimStart_snoc (s : JS.jsstring) c :
  JS.is_white_space c = false ->
  JS.trimStart (s ++ [c]) = JS.trimStart s ++ [c].
Proof.
  intros Hc. induction s as [| c' s IH]; cbn; [by rewrite Hc |].
  by destruct (JS.is_white_space c').
Qed.

Lemma trimEnd_cons (s : JS.jsstring) c :
  JS.is_white_space c = false -> JS.trimEnd (c :: s) = c :: JS.trimEnd s.
Proof.
  intros Hc. unfold JS.trimEnd.
  by rewrite reverse_cons, trimStart_snoc, reverse_snoc.
Qed.

Lemma trimEnd_decompose (s : JS.jsstring) :
  exists suf, s = JS.trimEnd s ++ suf /\ blank suf.
Proof.
  destruct (trimStart_decompose (reverse s)) as (pre & Hs & Hpre).
  exists (reverse pre). split; [| by apply Forall_reverse].
  unfold JS.trimEnd. rewrite <- reverse_app, <- Hs. by rewrite reverse_involutive.
Qed.

Lemma trimEnd_last (s : JS.jsstring) c :
  last (JS.trimEnd s) = Some c -> JS.is_white_space c = false.
Proof.
  unfold JS.trimEnd. rewrite last_reverse. apply trimStart_head.
Qed.

(** [trim] cuts a maximal run of white space off each end. *)
Lemma trim_decompose (s : JS.jsstring) :
  exists pre suf,
    s = pre ++ JS.trim s ++ suf /\ blank pre /\ blank suf /\
    (JS.trim s = [] \/ trimmed (JS.trim s)).
Proof.
  destruct (trimStart_decompose s) as (pre & Hs & Hpre).
  destruct (trimEnd_decompose (JS.trimStart s)) as (suf & Ht & Hsuf).
  exists pre, suf. unfold JS.trim. repeat split; try done.
  - by rewrite <- Ht.
  - destruct (JS.trimStart s) as [| c t] eqn:Hstart; [by left |].
    assert (JS.is_white_space c = false) as Hc
      by (apply (trimStart_head s); by rewrite Hstart).
    right. rewrite (trimEnd_cons t c Hc). split.
    + by exists c.
    + rewrite <- (trimEnd_cons t c Hc).
      destruct (last (JS.trimEnd (c :: t))) as [d |] eqn:Hlast.
      * exists d. split; [done |]. by apply (trimEnd_last (c :: t)).
      * rewrite (trimEnd_cons t c Hc) in Hlast.
        by apply last_None in Hlast.
Qed.

Lemma trim_nil_iff (s : JS.jsstring) : JS.trim s = [] <-> blank s.
Proof.
  split.
  - intros Hnil. destruct (trim_decompose s) as (pre & suf & Hs & Hpre & Hsuf & _).
    rewrite Hnil in Hs. rewrite Hs. by apply Forall_app.
  - intros Hblank. unfold JS.trim.
    by rewrite (proj2 (trimStart_nil_iff s) Hblank).
Qed.

End TrimFacts.

Section ToDoListMore.
Import React ToDoList Spec.

(** X1. [handleAddTask] adds a task exactly when the typed text holds some
    character that is not white space; the task added is the typed text less
    the white space at its two ends, so it is never empty and never starts or
    ends with white space. *)
Theorem handleAddTask_adds_unless_blank (s : state) :
  (blank (newTask s) -> dispatch handleAddTask s = s) /\
  (~ blank (newTask s) ->
   exists pre t suf,
     newTask s = pre ++ t ++ suf /\ blank pre /\ blank suf /\ trimmed t /\
     dispatch handleAddTask s
     = {| tasks := tasks s ++ [Some t]; newTask := [] |}).
Proof.
  unfold dispatch, handleAddTask. split; intros Hblank.
  - apply trim_nil_iff in Hblank.
    rewrite bool_decide_eq_false_2 by (by intros Hne). by destruct s.
  - destruct (trim_decompose (newTask s))
      as (pre & suf & Hs & Hpre & Hsuf & [Hnil | Htrimmed]).
    + by apply trim_nil_iff in Hnil.
    + exists pre, (JS.trim (newTask s)), suf.
      do 4 (split; [done |]).
      rewrite bool_decide_eq_true_2; [done |].
      intros Hnil. destruct Htrimmed as [(c & Hc & _) _].
      by rewrite Hnil in Hc.
Qed.

Lemma handleAddTask_adds_unless_blank_witness :
  blank (JS.str "   ") /\
  dispatch handleAddTask {| tasks := []; newTask := JS.str "   " |}
  = {| tasks := []; newTask := JS.str "   " |} /\
  ~ blank (JS.str " Read  ") /\
  exists pre t suf,
    JS.str " Read  " = pre ++ t ++ suf /\ blank pre /\ blank suf /\
    trimmed t /\
    dispatch handleAddTask {| tasks := []; newTask := JS.str " Read  " |}
    = {| tasks := [] ++ [Some t]; newTask := [] |}.
Proof.
  assert (blank (JS.str "   ")) as Hblank by (repeat constructor).
  assert (~ blank (JS.str " Read  ")) as Htyped.
  { unfold blank. apply (bool_decide_unpack _). by vm_compute. }
  split; [exact Hblank |]. split; [| split; [exact Htyped |]].
  - exact (proj1 (handleAddTask_adds_unless_blank
                    {| tasks := []; newTask := JS.str "   " |}) Hblank).
  - exact (proj2 (handleAddTask_adds_unless_blank
                    {| tasks := []; newTask := JS.str " Read  " |}) Htyped).
Defined.

Lemma clean_tasks_lookup ts (n : nat) t :
  clean_tasks ts -> ts !! n = Some t -> exists x, t = Some x /\ trimmed x.
Proof.
  intros Hclean Hn. exact (proj1 (Forall_lookup _ ts) Hclean n t Hn).
Qed.

(** X2. The to-do list starts with, and keeps, only trimmed non-empty texts
    in its slots: typing, adding, deleting at any index, moving up from any
    rendered index and moving down from any index but the last preserve it. *)
Theorem clean_tasks_preserved :
  clean_tasks (tasks init) /\
  forall s : state,
    clean_tasks (tasks s) ->
    (forall v, clean_tasks (tasks (dispatch (handleInputChange v) s))) /\
    clean_tasks (tasks (dispatch handleAddTask s)) /\
    (forall i, clean_tasks (tasks (dispatch (handleDeleteTask i) s))) /\
    (forall i, 0 <= i < Z.of_nat (length (tasks s)) ->
       clean_tasks (tasks (dispatch (moveTaskUp i) s))) /\
    (forall i, 0 <= i < Z.of_nat (length (tasks s)) - 1 ->
       clean_tasks (tasks (dispatch (moveTaskDown i) s))).
Proof.
  split.
  { repeat constructor; eexists; (split; [reflexivity |]);
      split; eexists; split; reflexivity. }
  intros s Hclean. split; [| split; [| split; [| split]]].
  - intros v. exact Hclean.
  - unfold dispatch, handleAddTask.
    case_bool_decide as Hne; cbn; [| exact Hclean].
    apply Forall_app. split; [exact Hclean |].
    constructor; [| constructor].
    exists (JS.trim (newTask s)). split; [done |].
    by destruct (trim_decompose (newTask s))
      as (_ & _ & _ & _ & _ & [Hnil | Htrimmed]).
  - intros i. unfold dispatch, handleDeleteTask. cbn.
    destruct (Z.lt_ge_cases i 0) as [Hneg | Hpos].
    + unfold JS.filter. by rewrite filter_from_past.
    + rewrite filter_delete by done. by apply Forall_delete.
  - intros i Hi. destruct (Z.to_nat i) as [| n] eqn:Hn.
    + replace i with 0 by lia. exact Hclean.
    + replace i with (Z.of_nat (S n)) by lia.
      destruct (lookup_lt_is_Some_2 (tasks s) n) as [p Hp]; [lia |].
      destruct (lookup_lt_is_Some_2 (tasks s) (S n)) as [q Hq]; [lia |].
      rewrite (moveTaskUp_tasks s n p q Hp Hq). cbn.
      apply Forall_insert; [apply Forall_insert; [exact Hclean |] |].
      * exact (clean_tasks_lookup _ _ _ Hclean Hq).
      * exact (clean_tasks_lookup _ _ _ Hclean Hp).
  - intros i Hi. rewrite <- (Z2Nat.id i) by lia.
    destruct (lookup_lt_is_Some_2 (tasks s) (Z.to_nat i)) as [p Hp]; [lia |].
    destruct (lookup_lt_is_Some_2 (tasks s) (S (Z.to_nat i))) as [q Hq];
      [lia |].
    rewrite (moveTaskDown_inner s _ p q Hp Hq). cbn.
    apply Forall_insert; [apply Forall_insert; [exact Hclean |] |].
    + exact (clean_tasks_lookup _ _ _ Hclean Hp).
    + exact (clean_tasks_lookup _ _ _ Hclean Hq).
Qed.

Lemma clean_tasks_preserved_witness :
  clean_tasks (tasks init) /\
  clean_tasks
    (tasks (dispatch (handleDeleteTask 1)
              (dispatch (moveTaskUp 2) (dispatch (moveTaskDown 0) init)))).
Proof.
  destruct clean_tasks_preserved as [Hinit Hstep].
  split; [exact Hinit |].
  destruct (Hstep init Hinit) as (_ & _ & _ & _ & Hdown).
  assert (clean_tasks (tasks (dispatch (moveTaskDown 0) init))) as H1
    by (apply Hdown; cbn; lia).
  destruct (Hstep _ H1) as (_ & _ & _ & Hup & _).
  assert (clean_tasks
            (tasks (dispatch (moveTaskUp 2) (dispatch (moveTaskDown 0) init))))
    as H2 by (apply Hup; split; [lia | by vm_compute]).
  destruct (Hstep _ H2) as (_ & _ & Hdel & _).
  exact (Hdel 1).
Defined.

End ToDoListMore.

Section ToDoListMoves.
Import React ToDoList.

Lemma moveTaskUp_as_moveTaskDown (s : state) (n : nat) :
  (S n < length (tasks s))%nat ->
  dispatch (moveTaskUp (Z.of_nat (S n))) s
  = dispatch (moveTaskDown (Z.of_nat n)) s.
Proof.
  intros Hlt.
  destruct (lookup_lt_is_Some_2 (tasks s) n) as [p Hp]; [lia |].
  destruct (lookup_lt_is_Some_2 (tasks s) (S n)) as [q Hq]; [lia |].
  rewrite (moveTaskUp_tasks s n p q Hp Hq), (moveTaskDown_inner s n p q Hp Hq).
  f_equal. apply list_insert_insert_ne. lia.
Qed.

Lemma moveTaskDown_twice (s : state) (n : nat) :
  (S n < length (tasks s))%nat ->
  dispatch (moveTaskDown (Z.of_nat n)) (dispatch (moveTaskDown (Z.of_nat n)) s)
  = s.
Proof.
  intros Hlt.
  destruct (lookup_lt_is_Some_2 (tasks s) n) as [p Hp]; [lia |].
  destruct (lookup_lt_is_Some_2 (tasks s) (S n)) as [q Hq]; [lia |].
  rewrite (moveTaskDown_inner s n p q Hp Hq).
  erewrite moveTaskDown_inner; cbn [tasks newTask].
  - rewrite (swap_twice (tasks s) (S n) n q p) by (done || lia).
    by destruct s.
  - apply list_lookup_insert_eq. rewrite length_insert. lia.
  - rewrite list_lookup_insert_ne by lia. apply list_lookup_insert_eq. lia.
Qed.

(** X3. Below the last index [moveTaskDown(i)] exchanges the tasks at [i] and
    [i + 1]: the list keeps its length and its other slots, is a permutation
    of the list before, and a second [moveTaskDown(i)] after the re-render
    brings the first list back. *)
Theorem moveTaskDown_swaps_with_next (s : state) (i : Z) :
  0 <= i < Z.of_nat (length (tasks s)) - 1 ->
  let s' := dispatch (moveTaskDown i) s in
  length (tasks s') = length (tasks s) /\
  tasks s' !! Z.to_nat i = tasks s !! Z.to_nat (i + 1) /\
  tasks s' !! Z.to_nat (i + 1) = tasks s !! Z.to_nat i /\
  (forall j : nat, j <> Z.to_nat i -> j <> Z.to_nat (i + 1) ->
     tasks s' !! j = tasks s !! j) /\
  tasks s' ≡ₚ tasks s /\
  newTask s' = newTask s /\
  dispatch (moveTaskDown i) s' = s.
Proof.
  intros Hi s'. subst s'.
  replace (Z.to_nat (i + 1)) with (S (Z.to_nat i)) by lia.
  rewrite <- (Z2Nat.id i) by lia. rewrite Nat2Z.id.
  set (n := Z.to_nat i) in *.
  assert (S n < length (tasks s))%nat as Hlt by lia.
  split; [| split; [| split; [| split; [| split; [| split]]]]];
    [.. | by apply moveTaskDown_twice].
  all: destruct (lookup_lt_is_Some_2 (tasks s) n) as [p Hp]; [lia |].
  all: destruct (lookup_lt_is_Some_2 (tasks s) (S n)) as [q Hq]; [lia |].
  all: rewrite (moveTaskDown_inner s n p q Hp Hq); cbn [tasks newTask].
  - by rewrite !length_insert.
  - rewrite list_lookup_insert_eq by (rewrite length_insert; lia). by rewrite Hq.
  - rewrite list_lookup_insert_ne by lia.
    rewrite list_lookup_insert_eq by lia. by rewrite Hp.
  - intros j Hj1 Hj2. by rewrite !list_lookup_insert_ne by lia.
  - by apply swap_adjacent_Permutation.
  - done.
Qed.

Lemma moveTaskDown_swaps_with_next_witness :
  0 <= 0 < Z.of_nat (length (tasks init)) - 1 /\
  tasks (dispatch (moveTaskDown 0) init) ≡ₚ tasks init /\
  dispatch (moveTaskDown 0) (dispatch (moveTaskDown 0) init) = init.
Proof.
  assert (0 <= 0 < Z.of_nat (length (tasks init)) - 1) as Hi by (cbn; lia).
  destruct (moveTaskDown_swaps_with_next init 0 Hi)
    as (_ & _ & _ & _ & Hperm & _ & Hback).
  split; [exact Hi |]. split; [exact Hperm | exact Hback].
Defined.

(** X4. On the rendered indices where both apply, the up button of an item
    does what the down button of the item above does, and each undoes the
    other. *)
Theorem moveTaskUp_mirrors_moveTaskDown (s : state) (i : Z) :
  1 <= i < Z.of_nat (length (tasks s)) ->
  dispatch (moveTaskUp i) s = dispatch (moveTaskDown (i - 1)) s /\
  dispatch (moveTaskDown (i - 1)) (dispatch (moveTaskUp i) s) = s /\
  dispatch (moveTaskUp i) (dispatch (moveTaskDown (i - 1)) s) = s.
Proof.
  intros Hi.
  destruct (Z.to_nat i) as [| n] eqn:Hn; [lia |].
  replace i with (Z.of_nat (S n)) by lia.
  replace (Z.of_nat (S n) - 1) with (Z.of_nat n) by lia.
  assert (S n < length (tasks s))%nat as Hlt by lia.
  pose proof (moveTaskUp_as_moveTaskDown s n Hlt) as Hsame.
  split; [exact Hsame |]. split.
  - rewrite Hsame. by apply moveTaskDown_twice.
  - rewrite moveTaskUp_as_moveTaskDown.
    + by apply moveTaskDown_twice.
    + rewrite <- Hsame.
      destruct (lookup_lt_is_Some_2 (tasks s) n) as [p Hp]; [lia |].
      destruct (lookup_lt_is_Some_2 (tasks s) (S n)) as [q Hq]; [lia |].
      rewrite (moveTaskUp_tasks s n p q Hp Hq). cbn [tasks].
      by rewrite !length_insert.
Qed.

Lemma moveTaskUp_mirrors_moveTaskDown_witness :
  1 <= 1 < Z.of_nat (length (tasks init)) /\
  dispatch (moveTaskUp 1) init = dispatch (moveTaskDown 0) init /\
  dispatch (moveTaskDown 0) (dispatch (moveTaskUp 1) init) = init.
Proof.
  assert (1 <= 1 < Z.of_nat (length (tasks init))) as Hi by (cbn; lia).
  destruct (moveTaskUp_mirrors_moveTaskDown init 1 Hi) as (Hsame & Hback & _).
  split; [exact Hi |]. split; [exact Hsame | exact Hback].
Defined.

(** X5. On any non-empty list, [moveTaskDown] at the last index makes the
    list one slot longer: the last task moves to the new slot, its old slot
    holds [undefined], and the slots before it are untouched. *)
Theorem moveTaskDown_at_last_index (s : state) (i : Z) :
  0 <= i -> Z.of_nat (length (tasks s)) = i + 1 ->
  let s' := dispatch (moveTaskDown i) s in
  length (tasks s') = S (length (tasks s)) /\
  tasks s' !! Z.to_nat i = Some None /\
  tasks s' !! Z.to_nat (i + 1) = tasks s !! Z.to_nat i /\
  (forall j : nat, (j < Z.to_nat i)%nat -> tasks s' !! j = tasks s !! j) /\
  newTask s' = newTask s.
Proof.
  intros Hi Hlen s'. subst s'.
  replace (Z.to_nat (i + 1)) with (S (Z.to_nat i)) by lia.
  rewrite <- (Z2Nat.id i) by lia. rewrite Nat2Z.id.
  set (n := Z.to_nat i) in *.
  assert (length (tasks s) = S n) as Hlen' by lia.
  destruct (lookup_lt_is_Some_2 (tasks s) n) as [p Hp]; [lia |].
  rewrite (moveTaskDown_last s n p Hlen' Hp). cbn [tasks newTask].
  unfold JS.slot in *.
  split; [| split; [| split; [| split]]].
  - rewrite length_app, length_insert. cbn. lia.
  - rewrite lookup_app_l by (rewrite length_insert; lia).
    apply list_lookup_insert_eq. lia.
  - rewrite lookup_app_r by (rewrite length_insert; lia).
    rewrite length_insert, Hlen', Nat.sub_diag. by rewrite Hp.
  - intros j Hj. rewrite lookup_app_l by (rewrite length_insert; lia).
    apply list_lookup_insert_ne. lia.
  - done.
Qed.

Lemma moveTaskDown_at_last_index_witness :
  0 <= 2 /\ Z.of_nat (length (tasks init)) = 2 + 1 /\
  length (tasks (dispatch (moveTaskDown 2) init)) = 4%nat /\
  tasks (dispatch (moveTaskDown 2) init) !! 2%nat = Some None.
Proof.
  assert (0 <= 2) as Hi by lia.
  assert (Z.of_nat (length (tasks init)) = 2 + 1) as Hlen by reflexivity.
  destruct (moveTaskDown_at_last_index init 2 Hi Hlen) as (Hgrow & Hhole & _).
  split; [exact Hi |]. split; [exact Hlen |].
  split; [exact Hgrow | exact Hhole].
Defined.

End ToDoListMoves.

(** * Further properties: the three lists *)

Section ListsMore.
Context `{JS.JSNumber}.
Import React JSX.

Lemma filter_out_of_range {A : Type} (xs : list A) (index : Z) :
  index < 0 \/ Z.of_nat (length xs) <= index ->
  JS.filter (fun _ i => negb (i =? index)) xs = xs.
Proof.
  intros [Hneg | Hge].
  - by apply filter_from_past.
  - rewrite filter_delete, delete_take_drop by lia.
    rewrite take_ge, drop_ge by lia. apply app_nil_r.
Qed.

(** X6. A delete handler called with an index that names no element (a
    negative one, or one at or past the length) leaves the whole state as it
    is. *)
Theorem delete_out_of_range_changes_nothing (index : Z) :
  (forall s : ToDoList.state,
     index < 0 \/ Z.of_nat (length (ToDoList.tasks s)) <= index ->
     dispatch (ToDoList.handleDeleteTask index) s = s) /\
  (forall s : CarInventory.state,
     index < 0 \/ Z.of_nat (length (CarInventory.cars s)) <= index ->
     dispatch (CarInventory.handleRemoveCar index) s = s) /\
  (forall s : UpdateArrays.state,
     index < 0 \/ Z.of_nat (length (UpdateArrays.food s)) <= index ->
     dispatch (UpdateArrays.handleRemoveFood index) s = s).
Proof.
  split; [| split]; intros s Hout.
  - unfold dispatch, ToDoList.handleDeleteTask. cbn.
    rewrite filter_out_of_range by done. by destruct s.
  - unfold dispatch, CarInventory.handleRemoveCar. cbn.
    rewrite filter_out_of_range by done. by destruct s.
  - unfold dispatch, UpdateArrays.handleRemoveFood, UpdateArrays.setFoods.
    cbn. rewrite filter_out_of_range by done. by destruct s.
Qed.

(** X7. Adding an item and then deleting the index it was given (the old
    length) gives back the list as it was before the add. *)
Theorem add_then_delete_restores_list (thisYear : JS.num) :
  (forall s : ToDoList.state,
     JS.trim (ToDoList.newTask s) <> [] ->
     ToDoList.tasks
       (dispatch
          (ToDoList.handleDeleteTask (Z.of_nat (length (ToDoList.tasks s))))
          (dispatch ToDoList.handleAddTask s))
     = ToDoList.tasks s) /\
  (forall s : CarInventory.state,
     CarInventory.cars
       (dispatch
          (CarInventory.handleRemoveCar
             (Z.of_nat (length (CarInventory.cars s))))
          (dispatch (CarInventory.handleAddCar thisYear) s))
     = CarInventory.cars s) /\
  (forall (s : UpdateArrays.state) (doc : UpdateArrays.document),
     UpdateArrays.food
       (dispatch
          (UpdateArrays.handleRemoveFood
             (Z.of_nat (length (UpdateArrays.food s))))
          (dispatch (fst (UpdateArrays.handleAddFood doc)) s))
     = UpdateArrays.food s).
Proof.
  split; [| split].
  - intros s Hne. unfold dispatch at 2. unfold ToDoList.handleAddTask.
    rewrite bool_decide_eq_true_2 by done.
    rewrite handleDeleteTask_tasks by lia. cbn. rewrite Nat2Z.id.
    rewrite (delete_middle (ToDoList.tasks s) []). apply app_nil_r.
  - intros s. rewrite handleRemoveCar_cars by lia. cbn. rewrite Nat2Z.id.
    rewrite (delete_middle (CarInventory.cars s) []). apply app_nil_r.
  - intros s doc. rewrite handleRemoveFood_food by lia. cbn. rewrite Nat2Z.id.
    rewrite (delete_middle (UpdateArrays.food s) []). apply app_nil_r.
Qed.

Lemma index_keys_after_delete {A : Type} (xs : list A) (n : nat) :
  (n < length xs)%nat ->
  Z.of_nat <$> seq 0 (length (delete n xs))
  = take (length xs - 1) (Z.of_nat <$> seq 0 (length xs)).
Proof.
  intros Hn. rewrite length_delete by (by apply lookup_lt_is_Some_2).
  rewrite <- fmap_take, take_seq. f_equal. f_equal. lia.
Qed.

(** X8. In the three lists keyed by index, deleting the item at any valid
    index removes the largest key from the rendered keys, whichever item went:
    the keys after the delete are the keys before it less the last one. *)
Theorem index_keys_lose_the_last_key (index : Z) :
  0 <= index ->
  (forall s : ToDoList.state,
     index < Z.of_nat (length (ToDoList.tasks s)) ->
     keys (ToDoList.render_items
             (dispatch (ToDoList.handleDeleteTask index) s))
     = take (length (ToDoList.tasks s) - 1) (keys (ToDoList.render_items s))) /\
  (forall s : CarInventory.state,
     index < Z.of_nat (length (CarInventory.cars s)) ->
     keys (CarInventory.render_items
             (dispatch (CarInventory.handleRemoveCar index) s))
     = take (length (CarInventory.cars s) - 1)
         (keys (CarInventory.render_items s))) /\
  (forall s : UpdateArrays.state,
     index < Z.of_nat (length (UpdateArrays.food s)) ->
     keys (UpdateArrays.render_items
             (dispatch (UpdateArrays.handleRemoveFood index) s))
     = take (length (UpdateArrays.food s) - 1)
         (keys (UpdateArrays.render_items s))).
Proof.
  intros Hi. split; [| split]; intros s Hlt.
  - unfold ToDoList.render_items. rewrite !index_keys.
    rewrite handleDeleteTask_tasks by done. cbn [ToDoList.tasks].
    apply index_keys_after_delete. lia.
  - unfold CarInventory.render_items. rewrite !index_keys.
    rewrite handleRemoveCar_cars by done.
    apply index_keys_after_delete. lia.
  - unfold UpdateArrays.render_items. rewrite !index_keys.
    rewrite handleRemoveFood_food by done.
    apply index_keys_after_delete. lia.
Qed.

(** X9. [List] renders each item on its own: the keyed child of an item is
    the same wherever the item stands, so rendering a reordered collection
    reorders the same keyed children, and rendering a collection with one
    item taken out leaves the other keyed children as they were. *)
Theorem List_children_follow_their_items
    (category category' : JS.jsstring) (items items' : list RenderLists.FoodItem) :
  (items ≡ₚ items' ->
   RenderLists.List
     {| RenderLists.items := items; RenderLists.category := category |}
   ≡ₚ RenderLists.List
        {| RenderLists.items := items'; RenderLists.category := category' |}) /\
  (forall before item after,
     items = before ++ item :: after ->
     RenderLists.List
       {| RenderLists.items := items; RenderLists.category := category |}
     = RenderLists.List
         {| RenderLists.items := before; RenderLists.category := category |}
       ++ {| key := RenderLists.id item; child := item |}
       :: RenderLists.List
            {| RenderLists.items := after; RenderLists.category := category |} /\
     RenderLists.List
       {| RenderLists.items := before ++ after;
          RenderLists.category := category |}
     = RenderLists.List
         {| RenderLists.items := before; RenderLists.category := category |}
       ++ RenderLists.List
            {| RenderLists.items := after; RenderLists.category := category |}).
Proof.
  unfold RenderLists.List, JS.map. cbn [RenderLists.items].
  rewrite !(map_from_item _
              (fun item => {| key := RenderLists.id item; child := item |})).
  split.
  - intros Hperm. by apply fmap_Permutation.
  - intros before item after ->.
    rewrite !(map_from_item _
                (fun item => {| key := RenderLists.id item; child := item |})).
    by rewrite !fmap_app.
Qed.

End ListsMore.

Lemma delete_out_of_range_changes_nothing_witness :
  (-1 < 0 \/ Z.of_nat (length (ToDoList.tasks ToDoList.init)) <= -1) /\
  React.dispatch (ToDoList.handleDeleteTask (-1)) ToDoList.init
  = ToDoList.init /\
  (3 < 0 \/ Z.of_nat (length (UpdateArrays.food UpdateArrays.init)) <= 3) /\
  React.dispatch (UpdateArrays.handleRemoveFood 3) UpdateArrays.init
  = UpdateArrays.init.
Proof.
  assert (-1 < 0 \/ Z.of_nat (length (ToDoList.tasks ToDoList.init)) <= -1)
    as Hneg by (left; lia).
  assert (3 < 0 \/ Z.of_nat (length (UpdateArrays.food UpdateArrays.init)) <= 3)
    as Hpast by (right; cbn; lia).
  split; [exact Hneg |]. split; [| split; [exact Hpast |]].
  - exact (proj1 (@delete_out_of_range_changes_nothing Spec.opaque_numbers (-1))
             ToDoList.init Hneg).
  - exact (proj2 (proj2 (@delete_out_of_range_changes_nothing
                           Spec.opaque_numbers 3))
             UpdateArrays.init Hpast).
Defined.

Lemma add_then_delete_restores_list_witness :
  JS.trim (JS.str " Read ") <> [] /\
  ToDoList.tasks
    (React.dispatch (ToDoList.handleDeleteTask 3)
       (React.dispatch ToDoList.handleAddTask
          {| ToDoList.tasks := ToDoList.tasks ToDoList.init;
             ToDoList.newTask := JS.str " Read " |}))
  = ToDoList.tasks ToDoList.init.
Proof.
  assert (JS.trim (JS.str " Read ") <> []) as Hne by (by vm_compute).
  split; [exact Hne |].
  exact (proj1 (@add_then_delete_restores_list Spec.opaque_numbers tt)
           {| ToDoList.tasks := ToDoList.tasks ToDoList.init;
              ToDoList.newTask := JS.str " Read " |} Hne).
Defined.

Lemma index_keys_lose_the_last_key_witness :
  0 <= 0 /\ 0 < Z.of_nat (length (ToDoList.tasks ToDoList.init)) /\
  JSX.keys (ToDoList.render_items
              (React.dispatch (ToDoList.handleDeleteTask 0) ToDoList.init))
  = take 2 (JSX.keys (ToDoList.render_items ToDoList.init)).
Proof.
  assert (0 <= 0) as Hi by lia.
  assert (0 < Z.of_nat (length (ToDoList.tasks ToDoList.init))) as Hlt
    by (cbn; lia).
  split; [exact Hi |]. split; [exact Hlt |].
  exact (proj1 (@index_keys_lose_the_last_key Spec.opaque_numbers 0 Hi)
           ToDoList.init Hlt).
Defined.

Lemma List_children_follow_their_items_witness :
  RenderLists.fruits ≡ₚ reverse RenderLists.fruits /\
  RenderLists.List
    {| RenderLists.items := RenderLists.fruits;
       RenderLists.category := JS.str "Fruits" |}
  ≡ₚ RenderLists.List
       {| RenderLists.items := reverse RenderLists.fruits;
          RenderLists.category := JS.str "Fruits" |}.
Proof.
  assert (RenderLists.fruits ≡ₚ reverse RenderLists.fruits) as Hperm
    by (symmetry; apply reverse_Permutation).
  split; [exact Hperm |].
  exact (proj1 (List_children_follow_their_items (JS.str "Fruits")
                  (JS.str "Fruits") RenderLists.fruits
                  (reverse RenderLists.fruits)) Hperm).
Defined.

(** * Further properties: handlers called several times before a re-render *)

Section BatchFacts.
Context `{JS.JSNumber}.
Import React.

Lemma flush_app {S : Type} (q1 q2 : list (S -> S)) (s : S) :
  flush (q1 ++ q2) s = flush q2 (flush q1 s).
Proof. unfold flush. apply foldl_app. Qed.

(** X10. Two add clicks handled before a re-render: the to-do list, which
    passes the setter an array built from its snapshot, gains the task once;
    the car inventory, which passes an updater, gains the same car twice. *)
Theorem adds_before_a_rerender (thisYear : JS.num) :
  (forall s : ToDoList.state,
     batch [ToDoList.handleAddTask; ToDoList.handleAddTask] s
     = dispatch ToDoList.handleAddTask s) /\
  (forall s : CarInventory.state,
     CarInventory.cars
       (batch [CarInventory.handleAddCar thisYear;
               CarInventory.handleAddCar thisYear] s)
     = CarInventory.cars s
       ++ [ {| CarInventory.year := CarInventory.carYear s;
               CarInventory.make := CarInventory.carMake s;
               CarInventory.model := CarInventory.carModel s |};
            {| CarInventory.year := CarInventory.carYear s;
               CarInventory.make := CarInventory.carMake s;
               CarInventory.model := CarInventory.carModel s |} ]).
Proof.
  split; intros s.
  - unfold batch, dispatch, ToDoList.handleAddTask. cbn [fmap list_fmap concat].
    case_bool_decide; reflexivity.
  - cbn. by rewrite <- app_assoc.
Qed.

(** X11. Two delete clicks handled before a re-render: in the to-do list and
    the car inventory the second call filters the same snapshot and its
    result replaces the first, so only the second index is removed; in the
    food list the two updaters run one after the other, so both removals
    happen, the second index counted in the list the first one left. *)
Theorem deletes_before_a_rerender (i j : Z) :
  (forall s : ToDoList.state,
     batch [ToDoList.handleDeleteTask i; ToDoList.handleDeleteTask j] s
     = dispatch (ToDoList.handleDeleteTask j) s) /\
  (forall s : CarInventory.state,
     batch [CarInventory.handleRemoveCar i; CarInventory.handleRemoveCar j] s
     = dispatch (CarInventory.handleRemoveCar j) s) /\
  (forall s : UpdateArrays.state,
     batch [UpdateArrays.handleRemoveFood i; UpdateArrays.handleRemoveFood j] s
     = dispatch (UpdateArrays.handleRemoveFood j)
         (dispatch (UpdateArrays.handleRemoveFood i) s)).
Proof. repeat split. Qed.

(** X12. With an empty input box [handleAddFood] still appends: it reads the
    box, appends whatever text it holds (the empty string included) and
    empties the box, so a second click right after the first appends an empty
    item. *)
Theorem handleAddFood_accepts_any_text
    (doc : UpdateArrays.document) (s : UpdateArrays.state) :
  let first := UpdateArrays.handleAddFood doc in
  let second := UpdateArrays.handleAddFood (snd first) in
  UpdateArrays.food (dispatch (fst first) s)
  = UpdateArrays.food s ++ [UpdateArrays.foodInput doc] /\
  snd first = {| UpdateArrays.foodInput := [] |} /\
  UpdateArrays.food (dispatch (fst second) (dispatch (fst first) s))
  = UpdateArrays.food s ++ [UpdateArrays.foodInput doc; []] /\
  UpdateArrays.food (batch [fst first; fst second] s)
  = UpdateArrays.food s ++ [UpdateArrays.foodInput doc; []].
Proof.
  cbn. repeat split; by rewrite <- app_assoc.
Qed.

End BatchFacts.

(** * Further properties: the counters *)

Section CounterMore.
Import React.

Lemma flush_replicate_updater {S : Type} (u : S -> S) (n : nat) (s : S) :
  flush (concat (replicate n [u])) s = Nat.iter n u s.
Proof.
  revert s. induction n as [| n IH]; intros s; [done |].
  rewrite Nat.iter_succ_r. cbn [replicate concat].
  by rewrite flush_app, IH.
Qed.

Lemma iter_updater_increment (n : nat) (s : UpdaterCounter.state) :
  Spec.safe_integer (UpdaterCounter.count s) ->
  Spec.safe_integer (UpdaterCounter.count s + Z.of_nat n) ->
  UpdaterCounter.count
    (Nat.iter n
       (UpdaterCounter.setCount (Updater (fun c => JS.number_add c 1))) s)
  = UpdaterCounter.count s + Z.of_nat n.
Proof.
  intros Hc. induction n as [| n IH]; intros Hn; [cbn; lia |].
  rewrite Nat.iter_succ.
  cbn [UpdaterCounter.setCount UpdaterCounter.count resolve].
  rewrite IH by (unfold Spec.safe_integer in *; lia).
  rewrite number_add_safe; [lia |].
  unfold Spec.safe_integer in *; lia.
Qed.

Lemma iter_effect_increment (n : nat) (s : EffectCounter.state) :
  Spec.safe_integer (EffectCounter.count s) ->
  Spec.safe_integer (EffectCounter.count s + Z.of_nat n) ->
  EffectCounter.count
    (Nat.iter n
       (EffectCounter.setCount (Updater (fun c => JS.number_add c 1))) s)
  = EffectCounter.count s + Z.of_nat n /\
  EffectCounter.color
    (Nat.iter n
       (EffectCounter.setCount (Updater (fun c => JS.number_add c 1))) s)
  = EffectCounter.color s.
Proof.
  intros Hc. induction n as [| n IH]; intros Hn; [cbn; split; [lia | done] |].
  rewrite Nat.iter_succ.
  cbn [EffectCounter.setCount EffectCounter.count EffectCounter.color resolve].
  destruct IH as [IHc IHcol];
    [unfold Spec.safe_integer in *; lia |].
  rewrite IHc, IHcol. split; [| done].
  rewrite number_add_safe; [lia |].
  unfold Spec.safe_integer in *; lia.
Qed.

(** X13. Take a count [c] and a number [n] of increment clicks with [c] and
    [c + n] safe integers.  Handled before a re-render, [n] clicks leave the
    two updater-style counters at [c + n]; [n + 1] clicks leave [Counter],
    whose calls all store its snapshot's count plus one, at [c + 1] (for
    [c + 1] safe); [n] clicks each followed by a re-render bring [Counter] to
    [c + n] too. *)
Theorem n_increments (n : nat) :
  (forall s : UpdaterCounter.state,
     Spec.safe_integer (UpdaterCounter.count s) ->
     Spec.safe_integer (UpdaterCounter.count s + Z.of_nat n) ->
     UpdaterCounter.count
       (batch (replicate n UpdaterCounter.handleIncrement) s)
     = UpdaterCounter.count s + Z.of_nat n) /\
  (forall s : EffectCounter.state,
     Spec.safe_integer (EffectCounter.count s) ->
     Spec.safe_integer (EffectCounter.count s + Z.of_nat n) ->
     EffectCounter.count
       (batch (replicate n EffectCounter.handleAddCount) s)
     = EffectCounter.count s + Z.of_nat n /\
     EffectCounter.color
       (batch (replicate n EffectCounter.handleAddCount) s)
     = EffectCounter.color s) /\
  (forall s : UseStateCounter.state,
     Spec.safe_integer (UseStateCounter.count s) ->
     Spec.safe_integer (UseStateCounter.count s + 1) ->
     UseStateCounter.count
       (batch (replicate (S n) UseStateCounter.increment) s)
     = UseStateCounter.count s + 1) /\
  (forall s : UseStateCounter.state,
     Spec.safe_integer (UseStateCounter.count s) ->
     Spec.safe_integer (UseStateCounter.count s + Z.of_nat n) ->
     UseStateCounter.count
       (Nat.iter n (dispatch UseStateCounter.increment) s)
     = UseStateCounter.count s + Z.of_nat n).
Proof.
  split; [| split; [| split]]; intros s Hc Hn.
  - unfold batch. rewrite fmap_replicate.
    unfold UpdaterCounter.handleIncrement. rewrite flush_replicate_updater.
    by apply iter_updater_increment.
  - unfold batch. rewrite fmap_replicate.
    unfold EffectCounter.handleAddCount. rewrite flush_replicate_updater.
    by apply iter_effect_increment.
  - unfold batch. rewrite fmap_replicate.
    unfold UseStateCounter.increment. rewrite flush_replicate_updater.
    rewrite Nat.iter_succ.
    cbn [UseStateCounter.setCount UseStateCounter.count resolve].
    by apply number_add_safe.
  - induction n as [| n IH]; [cbn; lia |].
    rewrite Nat.iter_succ. unfold dispatch at 1.
    cbn [UseStateCounter.increment flush foldl UseStateCounter.setCount
         UseStateCounter.count resolve].
    rewrite IH by (unfold Spec.safe_integer in *; lia).
    rewrite number_add_safe; [lia |].
    unfold Spec.safe_integer in *; lia.
Qed.

Lemma n_increments_witness :
  Spec.safe_integer 0 /\ Spec.safe_integer (0 + Z.of_nat 3) /\
  UpdaterCounter.count
    (batch (replicate 3 UpdaterCounter.handleIncrement)
       {| UpdaterCounter.count := 0 |})
  = 0 + Z.of_nat 3 /\
  UseStateCounter.count
    (batch (replicate 4 UseStateCounter.increment)
       {| UseStateCounter.count := 0 |})
  = 0 + 1.
Proof.
  assert (Spec.safe_integer 0) as H0 by (unfold Spec.safe_integer; lia).
  assert (Spec.safe_integer (0 + Z.of_nat 3)) as H3
    by (unfold Spec.safe_integer; lia).
  assert (Spec.safe_integer (0 + 1)) as H1 by (unfold Spec.safe_integer; lia).
  destruct (n_increments 3) as (Hupdater & _ & Hcounter & _).
  split; [exact H0 |]. split; [exact H3 |]. split.
  - exact (Hupdater {| UpdaterCounter.count := 0 |} H0 H3).
  - exact (Hcounter {| UseStateCounter.count := 0 |} H0 H1).
Defined.



End CounterMore.

(** * Further properties: the shipping radio buttons *)

Section RadioFacts.
Context `{JS.JSNumber}.
Import React JSX OnChangeExample.

(** X15. The two shipping radio buttons are never both checked; choosing one
    checks it and unchecks the other; at the start "Delivery" is the checked
    one. *)
Theorem shipping_radios_exclusive :
  (forall s : state,
     ~ ((render_controls s !! 4%nat) ≫= checked = Some true /\
        (render_controls s !! 5%nat) ≫= checked = Some true)) /\
  (forall s : state,
     let s' := dispatch (handleShippingChange (JS.str "Pickup")) s in
     (render_controls s' !! 4%nat) ≫= checked = Some true /\
     (render_controls s' !! 5%nat) ≫= checked = Some false) /\
  (forall s : state,
     let s' := dispatch (handleShippingChange (JS.str "Delivery")) s in
     (render_controls s' !! 4%nat) ≫= checked = Some false /\
     (render_controls s' !! 5%nat) ≫= checked = Some true) /\
  (render_controls init !! 4%nat) ≫= checked = Some false /\
  (render_controls init !! 5%nat) ≫= checked = Some true.
Proof.
  split; [| repeat split].
  intros s [Hpickup Hdelivery]. cbn in Hpickup, Hdelivery.
  injection Hpickup as Hpickup. injection Hdelivery as Hdelivery.
  apply bool_decide_eq_true in Hpickup, Hdelivery.
  rewrite Hpickup in Hdelivery. discriminate Hdelivery.
Qed.

End RadioFacts.

(** * Further properties: the digital clock *)

Section ClockFacts.
Import React DigitalClock Spec.

Lemma padZero_two_digits (n : Z) :
  0 <= n < 100 -> padZero n = two_digits n.
Proof.
  intros Hn.
  assert (forallb (fun k : nat =>
                     bool_decide (padZero (Z.of_nat k)
                                  = two_digits (Z.of_nat k)))
            (seq 0 100) = true) as Hall by (by vm_compute).
  rewrite forallb_forall in Hall.
  assert (In (Z.to_nat n) (seq 0 100)) as Hin by (apply in_seq; lia).
  specialize (Hall _ Hin). apply bool_decide_eq_true in Hall.
  by rewrite Z2Nat.id in Hall by lia.
Qed.

Lemma two_digits_inj (m n : Z) :
  0 <= m < 100 -> 0 <= n < 100 -> two_digits m = two_digits n -> m = n.
Proof.
  intros Hm Hn Heq. unfold two_digits in Heq.
  injection Heq as Htens Hunits.
  assert (0 <= m / 10 /\ 0 <= n / 10) as [Hm10 Hn10]
    by (split; apply Z.div_pos; lia).
  pose proof (Z.mod_pos_bound m 10 eq_refl) as Hmmod.
  pose proof (Z.mod_pos_bound n 10 eq_refl) as Hnmod.
  apply Z2N.inj in Htens, Hunits; try lia.
  rewrite (Z.div_mod m 10), (Z.div_mod n 10) by lia. lia.
Qed.

(** X16. For a reading within the clock's ranges, [formatTime] gives eleven
    characters: hours, minutes and seconds as two digits each (the hours as
    read, 0 to 23), colons between them, a space, and "PM" from 12 o'clock on,
    "AM" before; two different readings never format alike. *)
Theorem formatTime_two_digit_fields (s : state) :
  valid_time (time s) ->
  formatTime s
  = two_digits (getHours (time s)) ++ JS.str ":"
    ++ two_digits (getMinutes (time s)) ++ JS.str ":"
    ++ two_digits (getSeconds (time s)) ++ JS.str " "
    ++ (if 12 <=? getHours (time s) then JS.str "PM" else JS.str "AM") /\
  length (formatTime s) = 11%nat /\
  (forall s' : state,
     valid_time (time s') -> formatTime s' = formatTime s -> s' = s).
Proof.
  intros Hvalid. pose proof Hvalid as (Hh & Hm & Hs).
  assert (forall s0 : state, valid_time (time s0) ->
            formatTime s0
            = two_digits (getHours (time s0)) ++ JS.str ":"
              ++ two_digits (getMinutes (time s0)) ++ JS.str ":"
              ++ two_digits (getSeconds (time s0)) ++ JS.str " "
              ++ (if 12 <=? getHours (time s0) then JS.str "PM"
                  else JS.str "AM")) as Hshape.
  { intros s0 (Hh0 & Hm0 & Hs0). unfold formatTime.
    by rewrite !padZero_two_digits by lia. }
  split; [by apply Hshape |].
  split.
  - rewrite Hshape by done. by destruct (12 <=? _).
  - intros s' Hvalid' Heq. pose proof Hvalid' as (Hh' & Hm' & Hs').
    rewrite (Hshape s'), (Hshape s) in Heq by done.
    destruct s as [[h m sec]], s' as [[h' m' sec']]. cbn in *.
    assert (two_digits h' = two_digits h /\ two_digits m' = two_digits m
            /\ two_digits sec' = two_digits sec) as (Eh & Em & Es).
    { unfold two_digits in *. cbn in Heq.
      injection Heq as E1 E2 E3 E4 E5 E6 _. by rewrite E1, E2, E3, E4, E5, E6. }
    apply two_digits_inj in Eh, Em, Es; try lia. by subst.
Qed.

Lemma formatTime_two_digit_fields_witness :
  valid_time {| getHours := 13; getMinutes := 5; getSeconds := 9 |} /\
  formatTime {| time := {| getHours := 13; getMinutes := 5; getSeconds := 9 |} |}
  = JS.str "13:05:09 PM".
Proof.
  assert (valid_time {| getHours := 13; getMinutes := 5; getSeconds := 9 |})
    as Hvalid by (unfold valid_time; cbn; lia).
  split; [exact Hvalid |].
  destruct (formatTime_two_digit_fields
              {| time := {| getHours := 13; getMinutes := 5;
                            getSeconds := 9 |} |} Hvalid) as (Hshape & _).
  rewrite Hshape. reflexivity.
Defined.

Lemma filter_out_absent (id : nat) (active : list nat) :
  id ∉ active -> base.filter (fun t => t <> id) active = active.
Proof.
  induction active as [| t active IH]; intros Hnot; [done |].
  apply not_elem_of_cons in Hnot as [Hne Hnot].
  rewrite filter_cons_True by done. f_equal. by apply IH.
Qed.

(** X17. The clock's effect starts one interval timer and its cleanup stops
    that timer and no other: run right after the effect it leaves the active
    timers as they were before; run at any later time it removes the
    effect's timer and keeps every other one. *)
Theorem interval_effect_cleanup (active : list nat) :
  fst (effect active) = active ++ [fresh active] /\
  snd (effect active) (fst (effect active)) = active /\
  (forall later : list nat,
     (fresh active ∉ snd (effect active) later) /\
     (forall t, t <> fresh active ->
        (t ∈ snd (effect active) later <-> t ∈ later))).
Proof.
  unfold effect, setInterval, clearInterval. cbn [fst snd].
  split; [done |]. split.
  - rewrite filter_app, filter_out_absent by apply infinite_is_fresh.
    rewrite filter_cons_False, filter_nil by (by intros Hne).
    apply app_nil_r.
  - intros later. split.
    + rewrite list_elem_of_filter. by intros [Hne _].
    + intros t Hne. rewrite list_elem_of_filter. tauto.
Qed.

End ClockFacts.

(** * Further properties: effects that follow the state *)

Section EffectFacts.
Import React.

Lemma commit_keeps_title_current (s s' : EffectCounter.state)
    (doc doc' : EffectCounter.document) :
  EffectCounter.title doc = EffectCounter.title (EffectCounter.effect s doc) ->
  EffectCounter.title (EffectCounter.commit (Some s) s' doc)
  = EffectCounter.title (EffectCounter.effect s' doc').
Proof.
  intros Hcurrent. unfold EffectCounter.commit, deps_changed.
  cbn [fmap option_fmap option_map].
  case_bool_decide as Hdeps; [done |].
  injection Hdeps as Hcount Hcolor.
  rewrite Hcurrent. cbn. by rewrite Hcount, Hcolor.
Qed.

(** X18. After mounting and after every event, whatever the handlers were,
    [document.title] is the text built from the current count and colour:
    the effect is skipped only when neither changed, when the title it wrote
    last is still the right one. *)
Theorem title_follows_count_and_color
    (hs : list (handler EffectCounter.state)) (doc0 : EffectCounter.document) :
  let final := foldl (fun sd h => EffectCounter.event h sd)
                 (EffectCounter.mount doc0) hs in
  EffectCounter.title (snd final)
  = JS.str "Count is " ++ JS.toString (EffectCounter.count (fst final))
    ++ JS.str " " ++ EffectCounter.color (fst final).
Proof.
  cbn zeta.
  assert (forall sd : EffectCounter.state * EffectCounter.document,
            EffectCounter.title (snd sd)
            = EffectCounter.title (EffectCounter.effect (fst sd) (snd sd)) ->
            EffectCounter.title
              (snd (foldl (fun sd h => EffectCounter.event h sd) sd hs))
            = EffectCounter.title
                (EffectCounter.effect
                   (fst (foldl (fun sd h => EffectCounter.event h sd) sd hs))
                   (snd (foldl (fun sd h => EffectCounter.event h sd) sd hs))))
    as Hinv.
  { induction hs as [| h hs IH]; intros sd Hsd; [exact Hsd |].
    cbn [foldl]. apply IH. unfold EffectCounter.event. cbn [fst snd].
    by apply commit_keeps_title_current. }
  exact (Hinv (EffectCounter.mount doc0) eq_refl).
Qed.

(** X19. A resize reaches the component exactly while it is mounted: with the
    listeners the mount left, the event sets [width] and [height] to the
    window's inner size at that moment; before the mount and after the
    unmount it changes nothing. *)
Theorem resize_reaches_the_mounted_component
    (w : WindowSize.window) (s : WindowSize.state) :
  let self := WindowSize.render_handleResize w in
  (forall w' : WindowSize.window,
     WindowSize.listeners w' = WindowSize.listeners (fst (WindowSize.mount w)) ->
     WindowSize.fire_resize self w' s
     = {| WindowSize.width := WindowSize.innerWidth w';
          WindowSize.height := WindowSize.innerHeight w' |}) /\
  WindowSize.fire_resize self w s = s /\
  WindowSize.fire_resize self (WindowSize.mount_unmount w) s = s.
Proof.
  cbn zeta.
  pose proof (render_handleResize_fresh w (JS.str "resize")) as Hfresh.
  pose proof (effect_then_cleanup _ w Hfresh) as [Hadd Hback].
  split; [| split].
  - intros w' Hsame. unfold WindowSize.fire_resize.
    rewrite bool_decide_eq_true_2; [done |].
    rewrite Hsame. unfold WindowSize.mount. rewrite Hadd.
    apply elem_of_app. right. left.
  - unfold WindowSize.fire_resize. by rewrite bool_decide_eq_false_2.
  - unfold WindowSize.fire_resize. rewrite bool_decide_eq_false_2; [done |].
    unfold WindowSize.mount_unmount, WindowSize.mount.
    destruct (WindowSize.effect (WindowSize.render_handleResize w) w)
      as [w1 cleanup] eqn:Heff.
    cbn [fst snd] in Hback. by rewrite Hback.
Qed.

End EffectFacts.
